(** * Segmentation pipeline of js/sam.js: a shallow embedding

    The development follows js/sam.js: the mask resampler
    ([resampleMaskTo]), the segmentation facade with its two strategies
    ([segmentBoxOnCanvas]) and the Moore-neighbour boundary tracer
    ([maskToGeoJSON]).

    Conventions.
    - JavaScript integers (sizes, indices, 8-bit samples) are [Z]; all sizes
      the program handles are far below 2^53, where the double arithmetic
      of [xx * w / tw] followed by [Math.floor] is exact, so it is [Z.div].
    - A typed array is a [list Z]; a read out of range is [None]
      (JavaScript's [undefined]) and a write out of range is dropped.
    - Box coordinates are finite numbers, here rationals ([Q]); tensor
      values are [float]s carrying an exact rational, an infinity or NaN
      (the rounding of a Float32Array store is not modelled).
    - The canvas calls the facade makes ([drawImage], [getImageData]) are
      functions of the pixel data. The first embedding of the facade puts no
      limit on the length of a buffer; module [Limited] embeds it again on
      an engine with an allocation limit, where creating a buffer can throw.
    - Exceptions are an explicit [result] type with [try]/[catch]. *)

From Stdlib Require Import ZArith QArith Qround Lia.
From stdpp Require Import base list gmap strings.

Local Open Scope Z_scope.

(** ** Exceptions *)

Inductive exn : Type :=
  | TypeError
  | RangeError
  | RuntimeError (msg : string).

Inductive result (A : Type) : Type :=
  | Ok (a : A)
  | Throw (e : exn).
Arguments Ok {A} a.
Arguments Throw {A} e.

#[global] Instance result_ret : MRet result := λ A a, Ok a.
#[global] Instance result_bind : MBind result := λ A B k r,
  match r with
  | Ok a => k a
  | Throw e => Throw e
  end.

(** [try { body } catch (e) { handler }] *)
Definition try_catch {A} (body : result A) (handler : exn → result A) : result A :=
  match body with
  | Ok a => Ok a
  | Throw e => handler e
  end.

(** ** Counted loops: [for (let i = lo; i < hi; i++) body] *)

Fixpoint for_loop {A} (n : nat) (i : Z) (body : Z → A → A) (a : A) : A :=
  match n with
  | O => a
  | S n' => for_loop n' (i + 1) body (body i a)
  end.

Definition for_range {A} (lo hi : Z) (body : Z → A → A) (a : A) : A :=
  for_loop (Z.to_nat (hi - lo)) lo body a.

(** ** Typed arrays *)

(** [a[i]] *)
Definition aget (a : list Z) (i : Z) : option Z :=
  if i <? 0 then None else a !! Z.to_nat i.

(** [a[i] = v] on a typed array: a write outside the array is dropped. *)
Definition aset (a : list Z) (i : Z) (v : Z) : list Z :=
  if i <? 0 then a else <[Z.to_nat i := v]> a.

(** Conversion of a stored value by a [Uint8ClampedArray]: [undefined]
    becomes 0, integers are clamped to 0..255. *)
Definition toUint8Clamped (v : option Z) : Z :=
  match v with
  | None => 0
  | Some z => Z.max 0 (Z.min 255 z)
  end.

(** [new Uint8ClampedArray(n)] and [new Uint8Array(n)]: a negative length
    is a RangeError. No upper limit is put on the length here; see
    [Limited.newTypedArray] for an engine that has one. *)
Definition newTypedArray (n : Z) : result (list Z) :=
  if n <? 0 then Throw RangeError else Ok (replicate (Z.to_nat n) 0).


(** The two values of a Mask entry. *)
Definition is_binary (v : Z) : Prop := v = 0 ∨ v = 255.

(** ** Mask Resampler (js/sam.js, resampleMaskTo) *)

(** [Math.floor(xx * w / tw)] *)
Definition srcCoord (xx w tw : Z) : Z := xx * w / tw.

Definition resampleMaskTo (mask : list Z) (w h tw th : Z) : result (list Z) :=
  out ← newTypedArray (tw * th);
  Ok (for_range 0 th (λ yy out,
        for_range 0 tw (λ xx out,
          let sx := srcCoord xx w tw in
          let sy := srcCoord yy h th in
          aset out (yy * tw + xx) (toUint8Clamped (aget mask (sy * w + sx))))
        out)
      out).

(** ** Floats held by tensors *)

Inductive float : Type :=
  | Fnum (q : Q)
  | Fposinf
  | Fneginf
  | Fnan.

(** [v / 255.0] for a sample read from an image buffer; [undefined / 255.0]
    is NaN. *)
Definition div255 (v : option Z) : float :=
  match v with
  | Some z => Fnum (z # 255)
  | None => Fnan
  end.

(** [val > 0.5]; a comparison with [undefined] or NaN is false. *)
Definition gt_half (v : option float) : bool :=
  match v with
  | Some (Fnum q) => negb (Qle_bool q (1 # 2))
  | Some Fposinf => true
  | _ => false
  end.

Definition fget (a : list float) (i : Z) : option float :=
  if i <? 0 then None else a !! Z.to_nat i.

Definition fset (a : list float) (i : Z) (v : float) : list float :=
  if i <? 0 then a else <[Z.to_nat i := v]> a.

(** ** Canvas and crop extraction *)

(** A raster: RGBA 8-bit samples, row-major, top-left origin. *)
Record Canvas : Type := { cwidth : Z; cheight : Z; cpixels : list Z }.

Record Box : Type := { box_x : Q; box_y : Q; box_w : Q; box_h : Q }.

(** Channel [k] of source pixel [(x, y)]; a pixel outside the source is not
    copied and stays transparent black. *)
Definition sample (src : Canvas) (x y k : Z) : Z :=
  if (0 <=? x) && (x <? cwidth src) && (0 <=? y) && (y <? cheight src)
  then default 0 (aget (cpixels src) ((y * cwidth src + x) * 4 + k))
  else 0.

(** The content of the [sw] x [sh] crop canvas after
    [ctx.drawImage(sourceCanvas, sx, sy, sw, sh, 0, 0, sw, sh)], as
    [ctx.getImageData(0, 0, sw, sh).data] returns it: an unscaled copy of
    the source rectangle, clipped to the source. *)
Definition getCropData (src : Canvas) (sx sy sw sh : Z) : list Z :=
  y ← seqZ 0 sh;
  x ← seqZ 0 sw;
  [sample src (sx + x) (sy + y) 0; sample src (sx + x) (sy + y) 1;
   sample src (sx + x) (sy + y) 2; sample src (sx + x) (sy + y) 3].

(** ** Threshold Classifier (the fallback branch of segmentBoxOnCanvas) *)

(** [a + n] and [a > b] on values that may be [undefined]. *)
Definition js_add (a : option Z) (n : Z) : option Z := (λ z, z + n) <$> a.

Definition js_gt (a b : option Z) : bool :=
  match a, b with
  | Some x, Some y => y <? x
  | _, _ => false
  end.

Definition isBlue (r g b : option Z) : bool :=
  js_gt b (Some 100) && js_gt b (js_add r 30) && js_gt b (js_add g 20).

Definition colorThreshold (cropData : list Z) (sw sh : Z) : result (list Z) :=
  mask ← newTypedArray (sw * sh);
  Ok (for_range 0 sh (λ y mask,
        for_range 0 sw (λ x mask,
          let idx := (y * sw + x) * 4 in
          let r := aget cropData idx in
          let g := aget cropData (idx + 1) in
          let b := aget cropData (idx + 2) in
          aset mask (y * sw + x) (if isBlue r g b then 255 else 0))
        mask)
      mask).

(** ** Model Inference Strategy *)

Definition MODEL_SIZE : Z := 1024.

Record Tensor : Type := { tdata : list float; tdims : list Z }.

(** The fill loop of the input buffer for a model input size [S]:
    [for (let i = 0, p = 0; i < imgData.data.length; i += 4, p++)],
    iterated over [p] with [i = 4 * p]. *)
Definition buildFloatData (S : Z) (imgData : list Z) : list float :=
  let floatData := replicate (Z.to_nat (S * S * 3)) (Fnum 0) in
  for_range 0 ((Z.of_nat (length imgData) + 3) / 4) (λ p floatData,
    let i := 4 * p in
    let floatData := fset floatData (p * 3 + 0) (div255 (aget imgData i)) in
    let floatData := fset floatData (p * 3 + 1) (div255 (aget imgData (i + 1))) in
    fset floatData (p * 3 + 2) (div255 (aget imgData (i + 2))))
  floatData.

(** [new ort.Tensor('float32', data, dims)]: the runtime rejects a buffer
    whose length is not the product of the dimensions. *)
Definition newTensor (data : list float) (dims : list Z) : result Tensor :=
  if Z.of_nat (length data) =? foldr Z.mul 1 dims
  then Ok {| tdata := data; tdims := dims |}
  else Throw (RuntimeError "Tensor size does not match data length").

(** A loaded inference session: its declared input names, if it exposes
    them, and [run], which maps named inputs to the named outputs in the
    order of [Object.keys], or throws. *)
Record Session : Type := {
  inputNames : option (list string);
  run : gmap string Tensor → result (list (string * Tensor))
}.

(** The module-level variables [ortSession] and [modelReady]. *)
Record ModelState : Type := { ortSession : option Session; modelReady : bool }.

Record SegResult : Type := { mask : list Z; width : Z; height : Z }.

(** Thresholding of the output tensor into a mask of [ow * oh] bytes. *)
Definition binarize (outData : list float) (n : Z) (mask0 : list Z) : list Z :=
  for_range 0 n (λ i mask,
    let val := fget outData i in
    aset mask i (if gt_half val then 255 else 0))
  mask0.

(** From [outTensor] to the returned object. [ow] and [oh] are the last
    two entries of [dims]; with fewer than two entries one of them is
    [undefined], [ow * oh] is NaN, the thresholded mask is empty, and every
    source index computed by the resampler is NaN, so that each of the
    [sw * sh] output bytes is the stored [undefined], 0. *)
Definition interpretOutput (outTensor : Tensor) (sw sh : Z) : result SegResult :=
  let outData := tdata outTensor in
  let dims := tdims outTensor in
  let ow := aget dims (Z.of_nat (length dims) - 1) in
  let oh := aget dims (Z.of_nat (length dims) - 2) in
  match ow, oh with
  | Some ow, Some oh =>
      mask ← newTypedArray (ow * oh);
      let mask := binarize outData (ow * oh) mask in
      finalMask ← resampleMaskTo mask ow oh sw sh;
      Ok {| mask := finalMask; width := sw; height := sh |}
  | _, _ =>
      finalMask ← newTypedArray (sw * sh);
      Ok {| mask := finalMask; width := sw; height := sh |}
  end.

(** The body of the inner [try]: run the session and read its first
    output. With no output, [outTensor] is [undefined] and reading
    [outTensor.data] throws. *)
Definition runAndInterpret (s : Session) (feeds : gmap string Tensor) (sw sh : Z)
    : result SegResult :=
  results ← run s feeds;
  match results with
  | [] => Throw TypeError
  | (outName, outTensor) :: _ => interpretOutput outTensor sw sh
  end.

(** [for (const name of inputNamesToTry) { try { ... return ... }
    catch (runErr) { feeds = {}; continue; } }]; [None] when the loop ends
    without a return. *)
Fixpoint tryInputNames (s : Session) (inputTensor : Tensor) (sw sh : Z)
    (feeds : gmap string Tensor) (names : list string) : option SegResult :=
  match names with
  | [] => None
  | name :: names' =>
      let feeds := <[name := inputTensor]> feeds in
      match runAndInterpret s feeds sw sh with
      | Ok r => Some r
      | Throw runErr => tryInputNames s inputTensor sw sh ∅ names'
      end
  end.

Definition defaultInputNames : list string :=
  ["input"; "images"; "image"; "input_image"]%string.

(** The body of the outer [try]. [resize crop sw sh S] is the browser's
    scaled copy of the crop onto the [S] x [S] canvas [tmp], as
    [tctx.getImageData] returns it. *)
Definition modelBranch (resize : list Z → Z → Z → Z → list Z) (s : Session)
    (cropData : list Z) (sw sh : Z) : result (option SegResult) :=
  let imgData := resize cropData sw sh MODEL_SIZE in
  let floatData := buildFloatData MODEL_SIZE imgData in
  inputTensor ← newTensor floatData [1; 3; MODEL_SIZE; MODEL_SIZE];
  let inputNamesToTry := default defaultInputNames (inputNames s) in
  Ok (tryInputNames s inputTensor sw sh ∅ inputNamesToTry).

(** ** Segmentation Facade (js/sam.js, segmentBoxOnCanvas) *)

Definition segmentBoxOnCanvas (st : ModelState)
    (resize : list Z → Z → Z → Z → list Z)
    (sourceCanvas : Canvas) (box : Box) : result SegResult :=
  let sx := Z.max 0 (Qfloor (box_x box)) in
  let sy := Z.max 0 (Qfloor (box_y box)) in
  let sw := Z.max 1 (Qfloor (box_w box)) in
  let sh := Z.max 1 (Qfloor (box_h box)) in
  let cropData := getCropData sourceCanvas sx sy sw sh in
  returned ←
    match modelReady st, ortSession st with
    | true, Some s =>
        try_catch (modelBranch resize s cropData sw sh) (λ err, Ok None)
    | _, _ => Ok None
    end;
  match returned with
  | Some r => Ok r
  | None =>
      mask ← colorThreshold cropData sw sh;
      Ok {| mask := mask; width := sw; height := sh |}
  end.

(** What a returned segmentation result must satisfy for a crop of
    [sw] x [sh] pixels. *)
Definition mask_invariant (sw sh : Z) (r : SegResult) : Prop :=
  width r = sw ∧ height r = sh ∧
  Z.of_nat (length (mask r)) = sw * sh ∧
  Forall is_binary (mask r).

(** The layout the specification describes for the input tensor, to be
    compared with [buildFloatData]: channel-first, all [S * S] red values,
    then all green, then all blue. Entry [j] is channel [j / (S * S)] of
    pixel [j mod (S * S)]. *)
Definition spec_channelFirst (S : Z) (imgData : list Z) (j : Z) : float :=
  div255 (aget imgData (4 * (j `mod` (S * S)) + j / (S * S))).

(** ** Boundary Tracer (js/sam.js, maskToGeoJSON) *)

Inductive Geometry : Type :=
  | Polygon (coordinates : list (list (Z * Z))).

Record Feature : Type := { geometry : Geometry }.

Record FeatureCollection : Type := { features : list Feature }.

(** [mask[i] ? 1 : 0] *)
Definition truthy (v : option Z) : bool :=
  match v with
  | Some z => negb (z =? 0)
  | None => false
  end.

Definition buildBin (mask : list Z) (width height : Z) : result (list Z) :=
  bin ← newTypedArray (width * height);
  Ok (for_range 0 (width * height) (λ i bin,
        aset bin i (if truthy (aget mask i) then 1 else 0))
      bin).

(** [for (let i = 0; i < bin.length; i++) if (bin[i]) { start = i; break; }],
    with [start] initially -1. *)
Fixpoint findStartFrom (i : Z) (bin : list Z) : Z :=
  match bin with
  | [] => -1
  | v :: rest => if negb (v =? 0) then i else findStartFrom (i + 1) rest
  end.

Definition findStart (bin : list Z) : Z := findStartFrom 0 bin.

Definition directions : list (Z * Z) :=
  [(-1, 0); (-1, -1); (0, -1); (1, -1); (1, 0); (1, 1); (0, 1); (-1, 1)].

Definition LOOP_GUARD_MAX : Z := 1000000.

Record TraceState : Type := {
  curr : Z;
  prevDir : Z;
  done : bool;
  loopGuard : Z;
  coords : list (Z * Z)
}.

Section Tracer.
Variable bin : list Z.
Variables width height offsetX offsetY start : Z.

Definition idxToXY (i : Z) : Z * Z := (i `rem` width, i / width).

(** The neighbour search [for (let d = 0; d < 8; d++) { ... break; }]
    from [d], with [n] directions left: the index of the first in-bounds
    foreground neighbour and the direction that reached it. *)
Fixpoint findNeighbor (cx cy prev : Z) (n : nat) (d : Z) : option (Z * Z) :=
  match n with
  | O => None
  | S n' =>
      let di := (prev + 7 + d) `rem` 8 in
      let dir := default (0, 0) (directions !! Z.to_nat di) in
      let nx := cx + dir.1 in
      let ny := cy + dir.2 in
      if (0 <=? nx) && (nx <? width) && (0 <=? ny) && (ny <? height)
         && truthy (aget bin (ny * width + nx))
      then Some (ny * width + nx, di)
      else findNeighbor cx cy prev n' (d + 1)
  end.

(** One execution of the body of the tracing loop. *)
Definition traceBody (s : TraceState) : TraceState :=
  let '(cx, cy) := idxToXY (curr s) in
  let coords' := coords s ++ [(cx + offsetX, cy + offsetY)] in
  let next := findNeighbor cx cy (prevDir s) 8 0 in
  let curr' := from_option fst (curr s) next in
  let prevDir' := from_option snd (prevDir s) next in
  let done' := if next is Some _ then done s else true in
  let done'' :=
    if (curr' =? start) && (20 <? Z.of_nat (length coords')) then true else done' in
  {| curr := curr'; prevDir := prevDir'; done := done'';
     loopGuard := loopGuard s; coords := coords' |}.

(** The loop test [!done && loopGuard++ < 1000000], with its effect on
    [loopGuard]: the increment happens whenever [done] is false. *)
Definition loopTest (s : TraceState) : bool * TraceState :=
  if done s then (false, s)
  else (loopGuard s <? LOOP_GUARD_MAX,
        {| curr := curr s; prevDir := prevDir s; done := done s;
           loopGuard := loopGuard s + 1; coords := coords s |}).

(** [while (test) body], unfolded at most [fuel] times. *)
Fixpoint whileLoop (fuel : nat) (s : TraceState) : TraceState :=
  match fuel with
  | O => s
  | S fuel' =>
      let '(continue, s1) := loopTest s in
      if continue then whileLoop fuel' (traceBody s1) else s1
  end.

(** The state reached after exactly [n] passes through test and body. *)
Fixpoint iterations (n : nat) (s : TraceState) : TraceState :=
  match n with
  | O => s
  | S n' => iterations n' (traceBody (loopTest s).2)
  end.

Definition traceInit : TraceState :=
  {| curr := start; prevDir := 0; done := false; loopGuard := 0; coords := [] |}.
End Tracer.

(** The tracing loop is unfolded at most [LOOP_GUARD_MAX + 1] times; its own
    guard makes the test fail before that (see [loopTest_fails_within]). *)
Definition traceFuel : nat := S (Z.to_nat LOOP_GUARD_MAX).

Definition maskToGeoJSON (mask : list Z) (width height offsetX offsetY : Z)
    : result FeatureCollection :=
  bin ← buildBin mask width height;
  let start := findStart bin in
  if start =? -1 then Ok {| features := [] |}
  else
    let s := whileLoop bin width height offsetX offsetY start traceFuel
               (traceInit start) in
    let polygon := [(λ pt : Z * Z, (pt.1, pt.2)) <$> coords s] in
    Ok {| features := [ {| geometry := Polygon polygon |} ] |}.

(** ** Masks used in the scenarios *)

(** The 4 x 4 mask with the 2 x 2 foreground square at rows and columns 1..2. *)
Definition squareMask : list Z :=
  [0; 0; 0; 0;
   0; 255; 255; 0;
   0; 255; 255; 0;
   0; 0; 0; 0].

(** The 10 x 10 mask whose only foreground pixel is (5, 5). *)
Definition singlePixelMask : list Z := <[55%nat := 255]> (replicate 100 0).



(** ** Model loading (js/sam.js, initModel) *)

(** The global [ort] of onnxruntime-web, as far as [initModel] uses it:
    [ort.InferenceSession.create(modelUrl, options)], which yields a
    session or fails. *)
Record Runtime : Type := { create : string → result Session }.

(** [!modelUrl]: a missing URL and the empty string are falsy. *)
Definition noModelUrl (modelUrl : option string) : bool :=
  match modelUrl with
  | None => true
  | Some url => bool_decide (url = ""%string)
  end.

(** [initModel(modelUrl)] as a transition of the module state; [ort] is
    [window.ort], absent when the script is not loaded. *)
Definition initModel (ort : option Runtime) (st : ModelState)
    (modelUrl : option string) : ModelState :=
  if noModelUrl modelUrl then
    {| ortSession := ortSession st; modelReady := false |}
  else
    match ort with
    | None => {| ortSession := ortSession st; modelReady := false |}
    | Some rt =>
        match create rt (default ""%string modelUrl) with
        | Ok session => {| ortSession := Some session; modelReady := true |}
        | Throw err => {| ortSession := None; modelReady := false |}
        end
    end.

(** The module state before any call of [initModel]. *)
Definition initialState : ModelState := {| ortSession := None; modelReady := false |}.

(** ** Mask Encoder (js/sam.js, maskToImageData) *)

Record ImageData : Type := { iwidth : Z; iheight : Z; idata : list Z }.

Definition defaultOverlayColor : list Z := [0; 120; 255; 150].

(** [new ImageData(width, height)]: transparent black. A zero size is an
    IndexSizeError; a negative size wraps to an unsigned size that cannot
    be allocated. *)
Definition newImageData (width height : Z) : result ImageData :=
  if (width <=? 0) || (height <=? 0)
  then Throw (RuntimeError "IndexSizeError")
  else Ok {| iwidth := width; iheight := height;
             idata := replicate (Z.to_nat (width * height * 4)) 0 |}.

Definition maskToImageData (mask : list Z) (width height : Z)
    (overlayColor : list Z) : result ImageData :=
  id ← newImageData width height;
  Ok {| iwidth := iwidth id; iheight := iheight id;
        idata :=
          for_range 0 (width * height) (λ i data,
            let v := aget mask i in
            let data := aset data (i * 4 + 0) (toUint8Clamped (aget overlayColor 0)) in
            let data := aset data (i * 4 + 1) (toUint8Clamped (aget overlayColor 1)) in
            let data := aset data (i * 4 + 2) (toUint8Clamped (aget overlayColor 2)) in
            aset data (i * 4 + 3)
              (toUint8Clamped (if truthy v then aget overlayColor 3 else Some 0)))
          (idata id) |}.

(** ** Vocabulary of the tracer's properties *)

(** Two pixels that touch by an edge or a corner. *)
Definition adjacent8 (p q : Z * Z) : Prop :=
  Z.max (Z.abs (q.1 - p.1)) (Z.abs (q.2 - p.2)) = 1.

(** A sequence of points in which each point touches the next. *)
Definition chain (l : list (Z * Z)) : Prop :=
  ∀ (i : nat) p q, l !! i = Some p → l !! S i = Some q → adjacent8 p q.

Definition translatePoint (dx dy : Z) (p : Z * Z) : Z * Z := (p.1 + dx, p.2 + dy).

Definition translateGeometry (dx dy : Z) (g : Geometry) : Geometry :=
  match g with
  | Polygon rings =>
      Polygon ((λ ring : list (Z * Z), translatePoint dx dy <$> ring) <$> rings)
  end.

Definition translateCollection (dx dy : Z) (fc : FeatureCollection)
    : FeatureCollection :=
  {| features :=
       (λ f, {| geometry := translateGeometry dx dy (geometry f) |}) <$> features fc |}.

Definition translateState (dx dy : Z) (s : TraceState) : TraceState :=
  {| curr := curr s; prevDir := prevDir s; done := done s;
     loopGuard := loopGuard s; coords := translatePoint dx dy <$> coords s |}.

Definition result_map {A B} (f : A → B) (r : result A) : result B :=
  match r with
  | Ok a => Ok (f a)
  | Throw e => Throw e
  end.

(** A collection with one polygon of one ring. *)
Definition singleRing (ring : list (Z * Z)) : FeatureCollection :=
  {| features := [ {| geometry := Polygon [ring] |} ] |}.

(** Pixel [i] of the mask counts as foreground for the tracer. *)
Definition foreground (mask : list Z) (i : Z) : Prop := truthy (aget mask i) = true.

(** A pixel of the [width] x [height] grid that is foreground in [bin],
    shifted by the offsets. *)
Definition ring_point (bin : list Z) (width height offsetX offsetY : Z)
    (p : Z * Z) : Prop :=
  ∃ x y, p = (x + offsetX, y + offsetY) ∧ 0 ≤ x < width ∧ 0 ≤ y < height ∧
    truthy (aget bin (y * width + x)) = true.

(** An index of [bin] that is the row-major position of a foreground pixel
    of the grid. *)
Definition on_foreground (bin : list Z) (width height : Z) (i : Z) : Prop :=
  ∃ x y, i = y * width + x ∧ 0 ≤ x < width ∧ 0 ≤ y < height ∧
    truthy (aget bin i) = true.

(** What holds of the tracer's state before each test of its loop. *)
Definition walk_inv (bin : list Z) (width height offsetX offsetY : Z)
    (s : TraceState) : Prop :=
  0 ≤ prevDir s < 8 ∧
  on_foreground bin width height (curr s) ∧
  Forall (ring_point bin width height offsetX offsetY) (coords s) ∧
  chain (coords s) ∧
  (done s = false → ∀ p, last (coords s) = Some p →
     adjacent8 p (translatePoint offsetX offsetY (idxToXY width (curr s)))).

(** ** Allocation limits *)


Definition exceeds (maxLength : option Z) (n : Z) : bool :=
  match maxLength with
  | Some L => L <? n
  | None => false
  end.

(** The facade and what it calls, on an engine with an allocation limit.
    Every place of [segmentBoxOnCanvas] that creates a buffer is a place
    that can throw: [getImageData] (four bytes per pixel), the
    [Float32Array] of the input tensor, and each [Uint8ClampedArray]. *)
Module Limited.
Section WithLimit.
Variable maxLength : option Z.

(** [new Uint8ClampedArray(n)] *)
Definition newTypedArray (n : Z) : result (list Z) :=
  if exceeds maxLength n then Throw RangeError
  else if n <? 0 then Throw RangeError
  else Ok (replicate (Z.to_nat n) 0).

(** [ctx.getImageData(0, 0, sw, sh).data] on a canvas that holds [pixels]:
    a new buffer of [sw * sh * 4] bytes. *)
Definition getImageData (pixels : list Z) (sw sh : Z) : result (list Z) :=
  if exceeds maxLength (sw * sh * 4) then Throw RangeError else Ok pixels.

Definition resampleMaskTo (mask : list Z) (w h tw th : Z) : result (list Z) :=
  out ← newTypedArray (tw * th);
  Ok (for_range 0 th (λ yy out,
        for_range 0 tw (λ xx out,
          let sx := srcCoord xx w tw in
          let sy := srcCoord yy h th in
          aset out (yy * tw + xx) (toUint8Clamped (aget mask (sy * w + sx))))
        out)
      out).

Definition colorThreshold (cropData : list Z) (sw sh : Z) : result (list Z) :=
  mask ← newTypedArray (sw * sh);
  Ok (for_range 0 sh (λ y mask,
        for_range 0 sw (λ x mask,
          let idx := (y * sw + x) * 4 in
          let r := aget cropData idx in
          let g := aget cropData (idx + 1) in
          let b := aget cropData (idx + 2) in
          aset mask (y * sw + x) (if isBlue r g b then 255 else 0))
        mask)
      mask).

(** [new Float32Array(S * S * 3)] followed by the fill loop. *)
Definition buildFloatData (S : Z) (imgData : list Z) : result (list float) :=
  if exceeds maxLength (S * S * 3) then Throw RangeError
  else Ok (buildFloatData S imgData).

Definition interpretOutput (outTensor : Tensor) (sw sh : Z) : result SegResult :=
  let outData := tdata outTensor in
  let dims := tdims outTensor in
  let ow := aget dims (Z.of_nat (length dims) - 1) in
  let oh := aget dims (Z.of_nat (length dims) - 2) in
  match ow, oh with
  | Some ow, Some oh =>
      mask ← newTypedArray (ow * oh);
      let mask := binarize outData (ow * oh) mask in
      finalMask ← resampleMaskTo mask ow oh sw sh;
      Ok {| mask := finalMask; width := sw; height := sh |}
  | _, _ =>
      finalMask ← newTypedArray (sw * sh);
      Ok {| mask := finalMask; width := sw; height := sh |}
  end.

Definition runAndInterpret (s : Session) (feeds : gmap string Tensor) (sw sh : Z)
    : result SegResult :=
  results ← run s feeds;
  match results with
  | [] => Throw TypeError
  | (outName, outTensor) :: _ => interpretOutput outTensor sw sh
  end.

Fixpoint tryInputNames (s : Session) (inputTensor : Tensor) (sw sh : Z)
    (feeds : gmap string Tensor) (names : list string) : option SegResult :=
  match names with
  | [] => None
  | name :: names' =>
      let feeds := <[name := inputTensor]> feeds in
      match runAndInterpret s feeds sw sh with
      | Ok r => Some r
      | Throw runErr => tryInputNames s inputTensor sw sh ∅ names'
      end
  end.

Definition modelBranch (resize : list Z → Z → Z → Z → list Z) (s : Session)
    (crop : list Z) (sw sh : Z) : result (option SegResult) :=
  imgData ← getImageData (resize crop sw sh MODEL_SIZE) MODEL_SIZE MODEL_SIZE;
  floatData ← buildFloatData MODEL_SIZE imgData;
  inputTensor ← newTensor floatData [1; 3; MODEL_SIZE; MODEL_SIZE];
  let inputNamesToTry := default defaultInputNames (inputNames s) in
  Ok (tryInputNames s inputTensor sw sh ∅ inputNamesToTry).

(** [crop] is what the crop canvas holds after [drawImage]; the fallback
    reads it back with [getImageData], outside both [try] blocks. *)
Definition segmentBoxOnCanvas (st : ModelState)
    (resize : list Z → Z → Z → Z → list Z)
    (sourceCanvas : Canvas) (box : Box) : result SegResult :=
  let sx := Z.max 0 (Qfloor (box_x box)) in
  let sy := Z.max 0 (Qfloor (box_y box)) in
  let sw := Z.max 1 (Qfloor (box_w box)) in
  let sh := Z.max 1 (Qfloor (box_h box)) in
  let crop := getCropData sourceCanvas sx sy sw sh in
  returned ←
    match modelReady st, ortSession st with
    | true, Some s =>
        try_catch (modelBranch resize s crop sw sh) (λ err, Ok None)
    | _, _ => Ok None
    end;
  match returned with
  | Some r => Ok r
  | None =>
      cropData ← getImageData crop sw sh;
      mask ← colorThreshold cropData sw sh;
      Ok {| mask := mask; width := sw; height := sh |}
  end.
End WithLimit.
End Limited.



(** ** Loop reasoning *)

Lemma for_loop_inv {A} (P : Z → A → Prop) (body : Z → A → A) n :
  ∀ i a,
    P i a →
    (∀ j x, i ≤ j < i + Z.of_nat n → P j x → P (j + 1) (body j x)) →
    P (i + Z.of_nat n) (for_loop n i body a).
Proof.
  induction n as [|n IH]; intros i a Hi Hstep.
  - simpl. replace (i + Z.of_nat 0) with i by lia. exact Hi.
  - cbn [for_loop].
    replace (i + Z.of_nat (S n)) with ((i + 1) + Z.of_nat n) by lia.
    apply IH.
    + apply Hstep; [lia | exact Hi].
    + intros j x Hj. apply Hstep. lia.
Qed.

Lemma for_range_inv {A} (P : Z → A → Prop) (body : Z → A → A) lo hi a :
  lo ≤ hi →
  P lo a →
  (∀ j x, lo ≤ j < hi → P j x → P (j + 1) (body j x)) →
  P hi (for_range lo hi body a).
Proof.
  intros Hle H0 Hstep. unfold for_range.
  replace hi with (lo + Z.of_nat (Z.to_nat (hi - lo))) at 1 by lia.
  apply for_loop_inv; [exact H0|].
  intros j x Hj. apply Hstep. lia.
Qed.

Lemma aset_length a i v : length (aset a i v) = length a.
Proof. unfold aset. destruct (i <? 0); [reflexivity | apply length_insert]. Qed.

Lemma aset_lookup_eq a i v :
  0 ≤ i → (Z.to_nat i < length a)%nat → aset a i v !! Z.to_nat i = Some v.
Proof.
  intros H0 Hlt. unfold aset.
  destruct (Z.ltb_spec i 0); [lia|]. by apply list_lookup_insert_eq.
Qed.

Lemma aset_lookup_ne a i v (j : nat) :
  0 ≤ i → Z.to_nat i ≠ j → aset a i v !! j = a !! j.
Proof.
  intros H0 Hne. unfold aset.
  destruct (Z.ltb_spec i 0); [lia|]. by apply list_lookup_insert_ne.
Qed.

(** Row-major position of a pixel determines the pixel. *)
Lemma row_major_inj tw x y x' y' :
  0 ≤ x < tw → 0 ≤ x' < tw → y * tw + x = y' * tw + x' → x = x' ∧ y = y'.
Proof.
  intros Hx Hx' Heq.
  assert (y = y') by nia. subst. lia.
Qed.

(** A row-major double loop that stores [f xx yy] at [yy * tw + xx] fills
    every cell of the grid with its value. *)
Lemma fill_grid (f : Z → Z → Z) tw th (out0 : list Z) :
  0 ≤ tw → 0 ≤ th →
  length out0 = Z.to_nat (tw * th) →
  let out := for_range 0 th (λ yy o,
               for_range 0 tw (λ xx o, aset o (yy * tw + xx) (f xx yy)) o) out0 in
  length out = Z.to_nat (tw * th) ∧
  ∀ xx yy, 0 ≤ xx < tw → 0 ≤ yy < th →
    out !! Z.to_nat (yy * tw + xx) = Some (f xx yy).
Proof.
  intros Htw Hth Hlen out.
  pose (Inv := λ (pos : Z) (o : list Z),
    length o = Z.to_nat (tw * th) ∧
    ∀ xx yy, 0 ≤ xx < tw → 0 ≤ yy < th → yy * tw + xx < pos →
      o !! Z.to_nat (yy * tw + xx) = Some (f xx yy)).
  assert (Hfin : Inv (th * tw) out).
  { subst out.
    apply (for_range_inv (λ yy o, Inv (yy * tw) o)); [lia | |].
    - split; [exact Hlen|]. intros xx yy Hx Hy Hlt. nia.
    - intros yy o Hyy Ho.
      replace ((yy + 1) * tw) with (yy * tw + tw) by lia.
      apply (for_range_inv (λ xx o, Inv (yy * tw + xx) o)); [lia | |].
      + replace (yy * tw + 0) with (yy * tw) by lia. exact Ho.
      + intros xx o' Hxx [Hl Hc]. split.
        * by rewrite aset_length.
        * intros x' y' Hx' Hy' Hlt.
          destruct (Z.eq_dec (y' * tw + x') (yy * tw + xx)) as [Heq|Hne].
          -- destruct (row_major_inj tw x' y' xx yy) as [-> ->]; [lia..|].
             apply aset_lookup_eq; [nia|]. rewrite Hl. nia.
          -- rewrite aset_lookup_ne; [|nia|nia]. apply Hc; [lia..|]. lia. }
  destruct Hfin as [Hl Hc]. split; [exact Hl|].
  intros xx yy Hx Hy. apply Hc; [lia..|]. nia.
Qed.

Lemma aget_nonneg a i : 0 ≤ i → aget a i = a !! Z.to_nat i.
Proof. intros H. unfold aget. destruct (Z.ltb_spec i 0); [lia | reflexivity]. Qed.

Lemma aget_in_range a i : 0 ≤ i < Z.of_nat (length a) → is_Some (aget a i).
Proof.
  intros H. rewrite aget_nonneg by lia. apply lookup_lt_is_Some. lia.
Qed.

Lemma newTypedArray_ok n :
  0 ≤ n → newTypedArray n = Ok (replicate (Z.to_nat n) 0).
Proof. intros H. unfold newTypedArray. destruct (Z.ltb_spec n 0); [lia | reflexivity]. Qed.


(** *** The resampler *)



Lemma resampleMaskTo_lookup (m : list Z) w h tw th :
  0 ≤ tw → 0 ≤ th →
  ∃ out, resampleMaskTo m w h tw th = Ok out ∧
    length out = Z.to_nat (tw * th) ∧
    ∀ xx yy, 0 ≤ xx < tw → 0 ≤ yy < th →
      out !! Z.to_nat (yy * tw + xx) =
        Some (toUint8Clamped (aget m (srcCoord yy h th * w + srcCoord xx w tw))).
Proof.
  intros Htw Hth. unfold resampleMaskTo.
  rewrite newTypedArray_ok by nia. cbn [mbind result_bind].
  eexists. split; [reflexivity|].
  apply (fill_grid
    (λ xx yy, toUint8Clamped (aget m (srcCoord yy h th * w + srcCoord xx w tw))));
    [lia | lia | apply length_replicate].
Qed.






(** *** The threshold classifier *)

Lemma for_loop_preserves {A} (P : A → Prop) (body : Z → A → A) n :
  (∀ j x, P x → P (body j x)) → ∀ i a, P a → P (for_loop n i body a).
Proof.
  intros Hstep. induction n as [|n IH]; intros i a Ha; [exact Ha|].
  cbn [for_loop]. apply IH, Hstep, Ha.
Qed.

Lemma for_range_preserves {A} (P : A → Prop) (body : Z → A → A) lo hi a :
  (∀ j x, P x → P (body j x)) → P a → P (for_range lo hi body a).
Proof. intros Hstep Ha. unfold for_range. by apply for_loop_preserves. Qed.

Lemma aset_Forall (P : Z → Prop) a i v : Forall P a → P v → Forall P (aset a i v).
Proof.
  intros Ha Hv. unfold aset. destruct (i <? 0); [exact Ha|].
  by apply Forall_insert.
Qed.

Lemma newTypedArray_binary n a : newTypedArray n = Ok a → Forall is_binary a.
Proof.
  unfold newTypedArray. destruct (n <? 0); [discriminate|].
  intros [= <-]. apply Forall_replicate. by left.
Qed.

Lemma js_gt_spec x y : js_gt (Some x) (Some y) = true ↔ x > y.
Proof. unfold js_gt. rewrite Z.ltb_lt. lia. Qed.

Lemma isBlue_spec (R G B : Z) :
  isBlue (Some R) (Some G) (Some B) = true ↔ B > 100 ∧ B > R + 30 ∧ B > G + 20.
Proof.
  unfold isBlue, js_add. cbn [fmap option_fmap option_map].
  rewrite !andb_true_iff, !js_gt_spec. tauto.
Qed.

Lemma colorThreshold_lookup (cropData : list Z) sw sh :
  0 ≤ sw → 0 ≤ sh →
  ∃ m, colorThreshold cropData sw sh = Ok m ∧
    length m = Z.to_nat (sw * sh) ∧
    ∀ x y, 0 ≤ x < sw → 0 ≤ y < sh →
      m !! Z.to_nat (y * sw + x) =
        Some (if isBlue (aget cropData ((y * sw + x) * 4))
                        (aget cropData ((y * sw + x) * 4 + 1))
                        (aget cropData ((y * sw + x) * 4 + 2))
              then 255 else 0).
Proof.
  intros Hsw Hsh. unfold colorThreshold.
  rewrite newTypedArray_ok by nia. cbn [mbind result_bind].
  eexists. split; [reflexivity|].
  apply (fill_grid
    (λ x y, if isBlue (aget cropData ((y * sw + x) * 4))
                      (aget cropData ((y * sw + x) * 4 + 1))
                      (aget cropData ((y * sw + x) * 4 + 2))
            then 255 else 0));
    [lia | lia | apply length_replicate].
Qed.

Lemma colorThreshold_binary (cropData : list Z) sw sh m :
  colorThreshold cropData sw sh = Ok m → Forall is_binary m.
Proof.
  unfold colorThreshold.
  destruct (newTypedArray (sw * sh)) as [a|e] eqn:Ha; [|discriminate].
  cbn [mbind result_bind]. intros [= <-].
  apply for_range_preserves; [|by eapply newTypedArray_binary].
  intros y o Ho. apply for_range_preserves; [|exact Ho].
  intros x o' Ho'. apply aset_Forall; [exact Ho'|].
  destruct (isBlue _ _ _); [by right | by left].
Qed.

(** C2. The fallback branch is a per-pixel function of the crop: on an
    RGBA crop of [sw] x [sh] pixels it produces a mask whose byte at
    [(x, y)] is 255 exactly when the pixel's channels satisfy
    [B > 100], [B > R + 30] and [B > G + 20], and 0 otherwise. *)
Theorem colorThreshold_blue_rule (cropData : list Z) (sw sh : Z) :
  0 ≤ sw → 0 ≤ sh →
  Z.of_nat (length cropData) = sw * sh * 4 →
  ∃ m, colorThreshold cropData sw sh = Ok m ∧
    ∀ x y, 0 ≤ x < sw → 0 ≤ y < sh →
      ∃ R G B,
        aget cropData ((y * sw + x) * 4) = Some R ∧
        aget cropData ((y * sw + x) * 4 + 1) = Some G ∧
        aget cropData ((y * sw + x) * 4 + 2) = Some B ∧
        (aget m (y * sw + x) = Some 255 ↔ B > 100 ∧ B > R + 30 ∧ B > G + 20) ∧
        (aget m (y * sw + x) = Some 0 ↔ ¬ (B > 100 ∧ B > R + 30 ∧ B > G + 20)).
Proof.
  intros Hsw Hsh Hlen.
  destruct (colorThreshold_lookup cropData sw sh Hsw Hsh) as (m & Hm & Hl & Hc).
  exists m. split; [exact Hm|].
  intros x y Hx Hy.
  assert (Hidx : 0 ≤ (y * sw + x) * 4 ∧ (y * sw + x) * 4 + 3 < sw * sh * 4) by nia.
  destruct (aget_in_range cropData ((y * sw + x) * 4)) as [R HR]; [lia|].
  destruct (aget_in_range cropData ((y * sw + x) * 4 + 1)) as [G HG]; [lia|].
  destruct (aget_in_range cropData ((y * sw + x) * 4 + 2)) as [B HB]; [lia|].
  exists R, G, B. split; [exact HR|]. split; [exact HG|]. split; [exact HB|].
  rewrite aget_nonneg by nia. rewrite Hc by lia. rewrite HR, HG, HB.
  pose proof (isBlue_spec R G B) as Hspec.
  destruct (isBlue (Some R) (Some G) (Some B)).
  - split; split; try done.
    + intros _. by apply Hspec.
    + intros Hn. exfalso. apply Hn. by apply Hspec.
  - split; split; try done.
    + intros Hb. apply Hspec in Hb. discriminate.
    + intros _ Hb. apply Hspec in Hb. discriminate.
Qed.

Lemma colorThreshold_blue_rule_witness :
  ∃ m, colorThreshold [0; 0; 200; 255; 100; 100; 120; 255] 2 1 = Ok m ∧
    ∀ x y, 0 ≤ x < 2 → 0 ≤ y < 1 →
      ∃ R G B,
        aget [0; 0; 200; 255; 100; 100; 120; 255] ((y * 2 + x) * 4) = Some R ∧
        aget [0; 0; 200; 255; 100; 100; 120; 255] ((y * 2 + x) * 4 + 1) = Some G ∧
        aget [0; 0; 200; 255; 100; 100; 120; 255] ((y * 2 + x) * 4 + 2) = Some B ∧
        (aget m (y * 2 + x) = Some 255 ↔ B > 100 ∧ B > R + 30 ∧ B > G + 20) ∧
        (aget m (y * 2 + x) = Some 0 ↔ ¬ (B > 100 ∧ B > R + 30 ∧ B > G + 20)).
Proof.
  apply (colorThreshold_blue_rule [0; 0; 200; 255; 100; 100; 120; 255] 2 1);
    [lia | lia | reflexivity].
Defined.

(** *** The segmentation facade *)



Lemma aget_Forall (P : Z → Prop) a i v : Forall P a → aget a i = Some v → P v.
Proof.
  intros Ha. unfold aget. destruct (i <? 0); [discriminate|].
  by apply Forall_lookup_1.
Qed.

Lemma toUint8Clamped_binary m i :
  Forall is_binary m → is_binary (toUint8Clamped (aget m i)).
Proof.
  intros Hm. destruct (aget m i) as [v|] eqn:Hv; [|by left].
  destruct (aget_Forall _ _ _ _ Hm Hv) as [-> | ->]; [by left | by right].
Qed.

Lemma resampleMaskTo_binary (m : list Z) w h tw th out :
  Forall is_binary m → resampleMaskTo m w h tw th = Ok out → Forall is_binary out.
Proof.
  intros Hm. unfold resampleMaskTo.
  destruct (newTypedArray (tw * th)) as [a|e] eqn:Ha; [|discriminate].
  cbn [mbind result_bind]. intros [= <-].
  apply for_range_preserves; [|by eapply newTypedArray_binary].
  intros yy o Ho. apply for_range_preserves; [|exact Ho].
  intros xx o' Ho'. apply aset_Forall; [exact Ho'|].
  by apply toUint8Clamped_binary.
Qed.

Lemma binarize_binary outData n mask0 :
  Forall is_binary mask0 → Forall is_binary (binarize outData n mask0).
Proof.
  intros H0. unfold binarize. apply for_range_preserves; [|exact H0].
  intros i o Ho. apply aset_Forall; [exact Ho|].
  destruct (gt_half _); [by right | by left].
Qed.

Lemma interpretOutput_invariant (outTensor : Tensor) sw sh r :
  1 ≤ sw → 1 ≤ sh →
  interpretOutput outTensor sw sh = Ok r → mask_invariant sw sh r.
Proof.
  intros Hsw Hsh. unfold interpretOutput. cbv zeta.
  destruct (aget (tdims outTensor) _) as [ow|];
    [destruct (aget (tdims outTensor) _) as [oh|]|].
  - destruct (newTypedArray (ow * oh)) as [a|e] eqn:Ha; [|discriminate].
    cbn [mbind result_bind].
    destruct (resampleMaskTo _ ow oh sw sh) as [out|e] eqn:Hout; [|discriminate].
    intros [= <-]. unfold mask_invariant. cbn [mask width height].
    split; [reflexivity|]. split; [reflexivity|]. split.
    + destruct (resampleMaskTo_lookup (binarize (tdata outTensor) (ow * oh) a)
                  ow oh sw sh) as (out' & Hout' & Hl & _); [lia..|].
      rewrite Hout in Hout'. injection Hout' as <-. nia.
    + eapply resampleMaskTo_binary; [|exact Hout].
      apply binarize_binary. by eapply newTypedArray_binary.
  - rewrite newTypedArray_ok by nia. cbn [mbind result_bind].
    intros [= <-]. unfold mask_invariant. cbn [mask width height].
    repeat split; [rewrite length_replicate; nia | apply Forall_replicate; by left].
  - rewrite newTypedArray_ok by nia. cbn [mbind result_bind].
    intros [= <-]. unfold mask_invariant. cbn [mask width height].
    repeat split; [rewrite length_replicate; nia | apply Forall_replicate; by left].
Qed.

Lemma runAndInterpret_invariant s feeds sw sh r :
  1 ≤ sw → 1 ≤ sh →
  runAndInterpret s feeds sw sh = Ok r → mask_invariant sw sh r.
Proof.
  intros Hsw Hsh. unfold runAndInterpret.
  destruct (run s feeds) as [[|[outName outTensor] rest]|e]; cbn [mbind result_bind];
    try discriminate.
  by apply interpretOutput_invariant.
Qed.

Lemma tryInputNames_invariant s inputTensor sw sh names :
  1 ≤ sw → 1 ≤ sh →
  ∀ feeds r, tryInputNames s inputTensor sw sh feeds names = Some r →
    mask_invariant sw sh r.
Proof.
  intros Hsw Hsh. induction names as [|name names IH]; intros feeds r; [discriminate|].
  cbn [tryInputNames].
  destruct (runAndInterpret s _ sw sh) as [r'|e] eqn:Hrun.
  - intros [= <-]. by eapply runAndInterpret_invariant.
  - apply IH.
Qed.

Lemma tryInputNames_all_throw s inputTensor sw sh names :
  (∀ feeds, ∃ e, run s feeds = Throw e) →
  ∀ feeds, tryInputNames s inputTensor sw sh feeds names = None.
Proof.
  intros Hrun. induction names as [|name names IH]; intros feeds; [reflexivity|].
  cbn [tryInputNames]. unfold runAndInterpret.
  destruct (Hrun (<[name:=inputTensor]> feeds)) as [e ->].
  cbn [mbind result_bind]. apply IH.
Qed.

Lemma modelBranch_invariant resize s cropData sw sh r :
  1 ≤ sw → 1 ≤ sh →
  modelBranch resize s cropData sw sh = Ok (Some r) → mask_invariant sw sh r.
Proof.
  intros Hsw Hsh. unfold modelBranch. cbv zeta.
  destruct (newTensor _ _) as [inputTensor|e]; cbn [mbind result_bind]; [|discriminate].
  intros [= H]. by eapply tryInputNames_invariant.
Qed.

Lemma modelBranch_all_throw resize s cropData sw sh :
  (∀ feeds, ∃ e, run s feeds = Throw e) →
  try_catch (modelBranch resize s cropData sw sh) (λ err, Ok None) = Ok None.
Proof.
  intros Hrun. unfold modelBranch. cbv zeta.
  destruct (newTensor _ _) as [inputTensor|e]; cbn [mbind result_bind try_catch];
    [|reflexivity].
  by rewrite tryInputNames_all_throw.
Qed.




(** *** The input tensor *)

Lemma fset_length a i v : length (fset a i v) = length a.
Proof. unfold fset. destruct (i <? 0); [reflexivity | apply length_insert]. Qed.

Lemma fset_lookup_eq a i v :
  0 ≤ i → (Z.to_nat i < length a)%nat → fset a i v !! Z.to_nat i = Some v.
Proof.
  intros H0 Hlt. unfold fset.
  destruct (Z.ltb_spec i 0); [lia|]. by apply list_lookup_insert_eq.
Qed.

Lemma fset_lookup_ne a i v (j : nat) :
  0 ≤ i → Z.to_nat i ≠ j → fset a i v !! j = a !! j.
Proof.
  intros H0 Hne. unfold fset.
  destruct (Z.ltb_spec i 0); [lia|]. by apply list_lookup_insert_ne.
Qed.

Lemma buildFloatData_length S imgData :
  length (buildFloatData S imgData) = Z.to_nat (S * S * 3).
Proof.
  unfold buildFloatData. cbv zeta.
  apply for_range_preserves; [|apply length_replicate].
  intros p fd Hfd. by rewrite !fset_length.
Qed.

(** The layout the fill loop produces: pixel-interleaved. Channel [c] of
    pixel [p] is stored, divided by 255, at index [p * 3 + c]; the alpha
    sample at [4 * p + 3] is never read. *)
Lemma buildFloatData_lookup S (imgData : list Z) p c :
  0 ≤ p → 4 * p < Z.of_nat (length imgData) → 0 ≤ c < 3 →
  p * 3 + c < S * S * 3 →
  fget (buildFloatData S imgData) (p * 3 + c) = Some (div255 (aget imgData (4 * p + c))).
Proof.
  intros Hp Hlen Hc Hin.
  pose (N := Z.to_nat (S * S * 3)).
  pose (Inv := λ (k : Z) (fd : list float),
    length fd = N ∧
    ∀ q d, 0 ≤ q < k → 0 ≤ d < 3 → q * 3 + d < S * S * 3 →
      fd !! Z.to_nat (q * 3 + d) = Some (div255 (aget imgData (4 * q + d)))).
  assert (Hbound : p + 1 ≤ (Z.of_nat (length imgData) + 3) / 4).
  { apply Z.div_le_lower_bound; lia. }
  assert (Hfin : Inv ((Z.of_nat (length imgData) + 3) / 4) (buildFloatData S imgData)).
  { unfold buildFloatData. cbv zeta.
    apply (for_range_inv Inv); [lia | |].
    - split; [apply length_replicate|]. intros q d Hq. lia.
    - intros k fd Hk [Hl Hc']. split; [by rewrite !fset_length|].
      intros q d Hq Hd Hqd.
      destruct (decide (q = k)) as [->|Hne].
      + assert (Hcase : d = 0 ∨ d = 1 ∨ d = 2) by lia.
        destruct Hcase as [-> | [-> | ->]].
        * rewrite !fset_lookup_ne by lia.
          rewrite fset_lookup_eq by (rewrite ?Hl; unfold N; lia).
          by replace (4 * k + 0) with (4 * k) by lia.
        * rewrite fset_lookup_ne by lia.
          rewrite fset_lookup_eq by (rewrite ?fset_length, ?Hl; unfold N; lia).
          reflexivity.
        * rewrite fset_lookup_eq by (rewrite ?fset_length, ?Hl; unfold N; lia).
          reflexivity.
      + rewrite !fset_lookup_ne by lia. apply Hc'; lia. }
  destruct Hfin as [_ Hlook].
  unfold fget. destruct (Z.ltb_spec (p * 3 + c) 0); [lia|].
  apply Hlook; lia.
Qed.

Lemma newTensor_floatData_ok imgData :
  newTensor (buildFloatData MODEL_SIZE imgData) [1; 3; MODEL_SIZE; MODEL_SIZE] =
    Ok {| tdata := buildFloatData MODEL_SIZE imgData;
          tdims := [1; 3; MODEL_SIZE; MODEL_SIZE] |}.
Proof.
  unfold newTensor. rewrite buildFloatData_length.
  replace (Z.of_nat (Z.to_nat (MODEL_SIZE * MODEL_SIZE * 3)) =?
           foldr Z.mul 1 [1; 3; MODEL_SIZE; MODEL_SIZE]) with true; [reflexivity|].
  symmetry. apply Z.eqb_eq. cbn [foldr]. unfold MODEL_SIZE. lia.
Qed.

(** C5 (the layout the code produces, against the channel-first layout of
    the claim). For every S x S image that starts with the pixels
    (10, 20, 30) and (40, 50, 60), index 1 of the buffer holds the green
    sample of pixel 0, 20/255, where a channel-first buffer holds the red
    sample of pixel 1, 40/255. *)
Theorem buildFloatData_interleaved (rest : list Z) :
  let imgData := [10; 20; 30; 255; 40; 50; 60; 255] ++ rest in
  fget (buildFloatData MODEL_SIZE imgData) 1 = Some (Fnum (20 # 255)) ∧
  spec_channelFirst MODEL_SIZE imgData 1 = Fnum (40 # 255).
Proof.
  intros imgData. split.
  - change 1 with (0 * 3 + 1) at 1.
    rewrite buildFloatData_lookup; [reflexivity | lia | | lia | unfold MODEL_SIZE; lia].
    unfold imgData. rewrite length_app. cbn [length]. lia.
  - reflexivity.
Qed.

(** *** The boundary tracer *)

Lemma findStartFrom_background bin :
  Forall (λ v, v = 0) bin → ∀ i, findStartFrom i bin = -1.
Proof.
  induction 1 as [|v bin -> _ IH]; intros i; [reflexivity|].
  cbn [findStartFrom]. apply IH.
Qed.

Lemma truthy_background (mask : list Z) i :
  Forall (λ v, v = 0) mask → truthy (aget mask i) = false.
Proof.
  intros Hm. destruct (aget mask i) as [v|] eqn:Hv; [|reflexivity].
  by rewrite (aget_Forall _ _ _ _ Hm Hv).
Qed.

Lemma buildBin_background (mask : list Z) width height bin :
  Forall (λ v, v = 0) mask →
  buildBin mask width height = Ok bin → Forall (λ v, v = 0) bin.
Proof.
  intros Hm. unfold buildBin.
  destruct (newTypedArray (width * height)) as [a|e] eqn:Ha; [|discriminate].
  cbn [mbind result_bind]. intros [= <-].
  apply for_range_preserves.
  - intros i o Ho. apply aset_Forall; [exact Ho|].
    by rewrite truthy_background.
  - revert Ha. unfold newTypedArray. destruct (_ <? 0); [discriminate|].
    intros [= <-]. by apply Forall_replicate.
Qed.

(** C7. A mask of [width * height] entries that are all 0 gives the empty
    feature collection, whatever the offsets: no polygon and no error. *)
Theorem maskToGeoJSON_background (mask : list Z) (width height offsetX offsetY : Z) :
  Z.of_nat (length mask) = width * height →
  Forall (λ v, v = 0) mask →
  maskToGeoJSON mask width height offsetX offsetY = Ok {| features := [] |}.
Proof.
  intros Hlen Hm. unfold maskToGeoJSON.
  destruct (buildBin mask width height) as [bin|e] eqn:Hbin.
  - cbn [mbind result_bind]. cbv zeta.
    unfold findStart.
    rewrite findStartFrom_background by (by eapply buildBin_background).
    reflexivity.
  - exfalso. revert Hbin. unfold buildBin.
    rewrite newTypedArray_ok by lia. discriminate.
Qed.

Lemma maskToGeoJSON_background_witness :
  maskToGeoJSON (replicate 12 0) 4 3 7 9 = Ok {| features := [] |}.
Proof.
  apply (maskToGeoJSON_background (replicate 12 0) 4 3 7 9); [reflexivity|].
  by apply Forall_replicate.
Defined.

(** C8. On the 10 x 10 mask with the single foreground pixel (5, 5) the
    result is one polygon whose ring is the single point
    [(5 + offsetX, 5 + offsetY)]. *)
Theorem maskToGeoJSON_single_pixel (offsetX offsetY : Z) :
  maskToGeoJSON singlePixelMask 10 10 offsetX offsetY =
    Ok {| features :=
            [ {| geometry := Polygon [[(5 + offsetX, 5 + offsetY)]] |} ] |}.
Proof. vm_compute. reflexivity. Qed.

(** C4 (as the code behaves). On the 4 x 4 mask with the 2 x 2 square the
    ring walks the four pixels of the square clockwise from (1, 1), six
    times over: 24 points, the last one (1, 2), next to (1, 1). *)
Theorem maskToGeoJSON_square_six_laps :
  maskToGeoJSON squareMask 4 4 0 0 =
    Ok {| features :=
            [ {| geometry :=
                   Polygon [mjoin (replicate 6 [(1, 1); (2, 1); (2, 2); (1, 2)])] |} ] |}.
Proof. vm_compute. reflexivity. Qed.

(** C4 (the claim as stated fails). The ring of the square is not a ring
    in which each boundary pixel appears once. *)
Lemma maskToGeoJSON_square_repeats :
  ¬ ∃ ring,
      maskToGeoJSON squareMask 4 4 0 0 =
        Ok {| features := [ {| geometry := Polygon [ring] |} ] |} ∧
      NoDup ring.
Proof.
  intros (ring & Hring & Hnodup).
  vm_compute in Hring. injection Hring as <-.
  apply NoDup_cons in Hnodup as [Hnotin _].
  apply Hnotin. do 3 right. left.
Qed.

(** *** Termination of the tracing loop *)

Section TracerLoop.
Variable bin : list Z.
Variables width height offsetX offsetY start : Z.

Local Abbreviation body := (traceBody bin width height offsetX offsetY start).
Local Abbreviation loop := (whileLoop bin width height offsetX offsetY start).
Local Abbreviation state := (iterations bin width height offsetX offsetY start).

Lemma loopTest_fst s :
  (loopTest s).1 = negb (done s) && (loopGuard s <? LOOP_GUARD_MAX).
Proof. unfold loopTest. by destruct (done s). Qed.

Lemma loopTest_true s :
  (loopTest s).1 = true →
  done s = false ∧ loopGuard s < LOOP_GUARD_MAX ∧
  done (loopTest s).2 = false ∧
  loopGuard (loopTest s).2 = loopGuard s + 1 ∧
  curr (loopTest s).2 = curr s ∧ prevDir (loopTest s).2 = prevDir s ∧
  coords (loopTest s).2 = coords s.
Proof.
  unfold loopTest. destruct (done s) eqn:Hd; cbn; [discriminate|].
  intros H%Z.ltb_lt. rewrite ?Hd. by repeat split.
Qed.

Lemma loopTest_coords s : coords (loopTest s).2 = coords s.
Proof. unfold loopTest. by destruct (done s). Qed.

Lemma traceBody_loopGuard s : loopGuard (body s) = loopGuard s.
Proof. unfold traceBody. by destruct (idxToXY width (curr s)). Qed.



Lemma iterations_succ_r n : ∀ s, state (S n) s = body (loopTest (state n s)).2.
Proof.
  induction n as [|n IH]; intros s; [reflexivity|].
  change (state (S (S n)) s) with (state (S n) (body (loopTest s).2)).
  by rewrite IH.
Qed.


(** The loop with enough fuel stops at the first pass whose test fails. *)
Lemma whileLoop_iterations n : ∀ s fuel,
  (∀ k, (k < n)%nat → (loopTest (state k s)).1 = true) →
  (loopTest (state n s)).1 = false →
  (n < fuel)%nat →
  loop fuel s = (loopTest (state n s)).2.
Proof.
  induction n as [|n IH]; intros s fuel Htests Hexit Hfuel;
    (destruct fuel as [|fuel]; [lia|]); cbn [whileLoop iterations].
  - cbn [iterations] in Hexit. destruct (loopTest s) as [c s1].
    cbn [fst] in Hexit. by subst c.
  - pose proof (Htests O ltac:(lia)) as H0. cbn [iterations] in H0.
    destruct (loopTest s) as [c s1] eqn:Htest. cbn [fst snd] in *. subst c.
    apply IH; [| |lia].
    2: { cbn [iterations] in Hexit. by rewrite Htest in Hexit. }
    intros k Hk. specialize (Htests (S k) ltac:(lia)).
    cbn [iterations] in Htests. by rewrite Htest in Htests.
Qed.

(** Within the passes the guard still allows, some test fails. *)
Lemma loopTest_fails_within m : ∀ s,
  LOOP_GUARD_MAX - loopGuard s ≤ Z.of_nat m →
  ∃ n, (n ≤ m)%nat ∧
    (∀ k, (k < n)%nat → (loopTest (state k s)).1 = true) ∧
    (loopTest (state n s)).1 = false.
Proof.
  induction m as [|m IH]; intros s Hguard.
  - exists O. split; [lia|]. split; [intros k Hk; lia|].
    cbn [iterations]. rewrite loopTest_fst.
    destruct (Z.ltb_spec (loopGuard s) LOOP_GUARD_MAX); [lia|].
    by rewrite andb_false_r.
  - destruct (loopTest s).1 eqn:Htest.
    + destruct (loopTest_true s Htest) as (_ & _ & _ & Hg & _).
      destruct (IH (body (loopTest s).2)) as (n & Hn & Htests & Hexit).
      { rewrite traceBody_loopGuard, Hg. lia. }
      exists (S n). split; [lia|]. split; [|exact Hexit].
      intros [|k] Hk; [exact Htest|]. apply Htests. lia.
    + exists O. split; [lia|]. split; [intros k Hk; lia | exact Htest].
Qed.

End TracerLoop.

(** *** The walk on the zigzag mask *)



(** *** The model branch on a small session *)

(** A ready session that accepts its declared input returns through the
    model branch: the first output, thresholded at 0.5 on its own 2 x 2
    grid and resampled to the 4 x 2 crop; the crop's colours play no part. *)
Example segmentBoxOnCanvas_model_branch (resize : list Z → Z → Z → Z → list Z) :
  segmentBoxOnCanvas
    {| ortSession :=
         Some {| inputNames := None;
                 run := λ feeds,
                   if decide (is_Some (feeds !! "input"%string))
                   then Ok [("masks"%string,
                             {| tdata := [Fnum (9 # 10); Fnum (1 # 2);
                                          Fnan; Fposinf];
                                tdims := [1; 1; 2; 2] |})]
                   else Throw (RuntimeError "missing input") |};
       modelReady := true |}
    resize
    {| cwidth := 4; cheight := 2; cpixels := replicate 32 0 |}
    {| box_x := 0; box_y := 0; box_w := 4; box_h := 2 |}
  = Ok {| mask := [255; 255; 0; 0; 0; 0; 255; 255]; width := 4; height := 2 |}.
Proof.
  unfold segmentBoxOnCanvas, modelBranch. cbv zeta.
  cbn [modelReady ortSession].
  rewrite newTensor_floatData_ok.
  generalize ({| tdata := buildFloatData MODEL_SIZE
                   (resize (getCropData
                      {| cwidth := 4; cheight := 2; cpixels := replicate 32 0 |}
                      (Z.max 0 (Qfloor 0)) (Z.max 0 (Qfloor 0))
                      (Z.max 1 (Qfloor 4)) (Z.max 1 (Qfloor 2)))
                      (Z.max 1 (Qfloor 4)) (Z.max 1 (Qfloor 2)) MODEL_SIZE);
                 tdims := [1; 3; MODEL_SIZE; MODEL_SIZE] |}).
  intros inputTensor. vm_compute. reflexivity.
Qed.

(** *** Model loading *)

(** X1. However often [initModel] is called, and with whatever URLs and
    runtimes, the module state it leaves never claims a ready model
    without holding a session. *)
Theorem initModel_ready_has_session
    (calls : list (option Runtime * option string)) :
  let st := foldl (λ st call, initModel call.1 st call.2) initialState calls in
  modelReady st = true → is_Some (ortSession st).
Proof.
  cbv zeta.
  assert (Hgen : ∀ st0, (modelReady st0 = true → is_Some (ortSession st0)) →
    modelReady (foldl (λ st call, initModel call.1 st call.2) st0 calls) = true →
    is_Some (ortSession (foldl (λ st call, initModel call.1 st call.2) st0 calls))).
  { induction calls as [|[ort url] calls IH]; intros st0 H0; [exact H0|].
    cbn [foldl]. apply IH. cbn [fst snd]. unfold initModel.
    destruct (noModelUrl url); [discriminate|].
    destruct ort as [rt|]; [|discriminate].
    destruct (create rt _); [by eexists | discriminate]. }
  apply Hgen. discriminate.
Qed.

Lemma initModel_ready_has_session_witness :
  is_Some (ortSession
    (foldl (λ st call, initModel call.1 st call.2) initialState
       [(Some {| create := λ url, Ok {| inputNames := None;
                                        run := λ feeds, Ok [] |} |},
         Some "mobile_sam.onnx"%string)])).
Proof.
  apply (initModel_ready_has_session
    [(Some {| create := λ url, Ok {| inputNames := None; run := λ feeds, Ok [] |} |},
      Some "mobile_sam.onnx"%string)]).
  reflexivity.
Defined.



(** *** The mask encoder *)

Lemma newImageData_ok width height :
  1 ≤ width → 1 ≤ height →
  newImageData width height =
    Ok {| iwidth := width; iheight := height;
          idata := replicate (Z.to_nat (width * height * 4)) 0 |}.
Proof.
  intros Hw Hh. unfold newImageData.
  destruct (Z.leb_spec width 0); [lia|]. destruct (Z.leb_spec height 0); [lia|].
  reflexivity.
Qed.

Lemma maskToImageData_lookup (mask : list Z) width height (overlayColor : list Z) :
  1 ≤ width → 1 ≤ height →
  ∃ data,
    maskToImageData mask width height overlayColor =
      Ok {| iwidth := width; iheight := height; idata := data |} ∧
    length data = Z.to_nat (width * height * 4) ∧
    ∀ i c, 0 ≤ i < width * height → 0 ≤ c < 4 →
      data !! Z.to_nat (i * 4 + c) =
        Some (toUint8Clamped
                (if c =? 3
                 then (if truthy (aget mask i) then aget overlayColor 3 else Some 0)
                 else aget overlayColor c)).
Proof.
  intros Hw Hh. unfold maskToImageData.
  rewrite newImageData_ok by lia. cbn [mbind result_bind iwidth iheight idata].
  eexists. split; [reflexivity|].
  pose (N := Z.to_nat (width * height * 4)).
  pose (Inv := λ (k : Z) (data : list Z),
    length data = N ∧
    ∀ i c, 0 ≤ i < k → 0 ≤ c < 4 →
      data !! Z.to_nat (i * 4 + c) =
        Some (toUint8Clamped
                (if c =? 3
                 then (if truthy (aget mask i) then aget overlayColor 3 else Some 0)
                 else aget overlayColor c))).
  apply (for_range_inv Inv); [nia | |].
  - split; [apply length_replicate|]. intros i c Hi. lia.
  - intros k data Hk [Hl Hc]. cbv zeta. split; [by rewrite !aset_length|].
    intros i c Hi Hcr.
    destruct (decide (i = k)) as [->|Hne].
    + assert (Hcase : c = 0 ∨ c = 1 ∨ c = 2 ∨ c = 3) by lia.
      destruct Hcase as [-> | [-> | [-> | ->]]]; cbn [Z.eqb Pos.eqb].
      * rewrite !aset_lookup_ne by lia.
        by rewrite aset_lookup_eq by (rewrite ?Hl; unfold N; lia).
      * rewrite !aset_lookup_ne by lia.
        by rewrite aset_lookup_eq by (rewrite ?aset_length, ?Hl; unfold N; lia).
      * rewrite !aset_lookup_ne by lia.
        by rewrite aset_lookup_eq by (rewrite ?aset_length, ?Hl; unfold N; lia).
      * by rewrite aset_lookup_eq by (rewrite ?aset_length, ?Hl; unfold N; lia).
    + rewrite !aset_lookup_ne by lia. apply Hc; lia.
Qed.



(** X4. The mask can be read back from the alpha channel: with an overlay
    alpha that is not 0 after clamping, and a 0/255 mask of
    [width * height] entries, a pixel's alpha byte is the overlay alpha
    exactly where the mask is 255 and 0 exactly where the mask is 0. *)
Theorem maskToImageData_alpha_round_trip (mask : list Z) (width height : Z)
    (overlayColor : list Z) :
  1 ≤ width → 1 ≤ height →
  Z.of_nat (length mask) = width * height →
  Forall is_binary mask →
  toUint8Clamped (aget overlayColor 3) ≠ 0 →
  ∃ data,
    maskToImageData mask width height overlayColor =
      Ok {| iwidth := width; iheight := height; idata := data |} ∧
    ∀ i, 0 ≤ i < width * height →
      (aget data (i * 4 + 3) = Some (toUint8Clamped (aget overlayColor 3))
         ↔ aget mask i = Some 255) ∧
      (aget data (i * 4 + 3) = Some 0 ↔ aget mask i = Some 0).
Proof.
  intros Hw Hh Hlen Hbin Halpha.
  destruct (maskToImageData_lookup mask width height overlayColor Hw Hh)
    as (data & Hdata & Hl & Hc).
  exists data. split; [exact Hdata|].
  intros i Hi.
  pose proof (Hc i 3 Hi ltac:(lia)) as H3. cbn [Z.eqb Pos.eqb] in H3.
  rewrite (aget_nonneg data) by lia. rewrite H3.
  destruct (aget_in_range mask i) as [v Hv]; [lia|]. rewrite Hv.
  destruct (aget_Forall _ _ _ _ Hbin Hv) as [-> | ->]; cbn [truthy Z.eqb negb].
  - cbn [toUint8Clamped]. split; split; try done.
    intros [= H]. exfalso. apply Halpha. unfold toUint8Clamped in *. lia.
  - split; split; try done.
    intros [= H]. by exfalso.
Qed.

Lemma maskToImageData_alpha_round_trip_witness :
  ∃ data,
    maskToImageData [255; 0; 0; 255] 2 2 defaultOverlayColor =
      Ok {| iwidth := 2; iheight := 2; idata := data |} ∧
    ∀ i, 0 ≤ i < 2 * 2 →
      (aget data (i * 4 + 3) = Some (toUint8Clamped (aget defaultOverlayColor 3))
         ↔ aget [255; 0; 0; 255] i = Some 255) ∧
      (aget data (i * 4 + 3) = Some 0 ↔ aget [255; 0; 0; 255] i = Some 0).
Proof.
  apply (maskToImageData_alpha_round_trip [255; 0; 0; 255] 2 2 defaultOverlayColor);
    [lia | lia | reflexivity | | discriminate].
  repeat constructor; unfold is_binary; lia.
Defined.

(** *** More on the resampler *)











(** *** The model branch *)

(** A loop that stores [f i] at [i] fills the array. *)
Lemma fill_row (f : Z → Z) n (out0 : list Z) :
  0 ≤ n → length out0 = Z.to_nat n →
  let out := for_range 0 n (λ i o, aset o i (f i)) out0 in
  length out = Z.to_nat n ∧
  ∀ i, 0 ≤ i < n → out !! Z.to_nat i = Some (f i).
Proof.
  intros Hn Hlen out.
  pose (Inv := λ (k : Z) (o : list Z),
    length o = Z.to_nat n ∧ ∀ i, 0 ≤ i < k → o !! Z.to_nat i = Some (f i)).
  assert (Hfin : Inv n out).
  { subst out. apply (for_range_inv Inv); [lia | |].
    - split; [exact Hlen|]. intros i Hi. lia.
    - intros k o Hk [Hl Hc]. split; [by rewrite aset_length|].
      intros i Hi. destruct (decide (i = k)) as [->|Hne].
      + apply aset_lookup_eq; lia.
      + rewrite aset_lookup_ne by lia. apply Hc. lia. }
  exact Hfin.
Qed.










(** *** The walk of the tracer *)

Lemma directions_lookup di :
  0 ≤ di < 8 →
  ∃ dx dy, directions !! Z.to_nat di = Some (dx, dy) ∧
    -1 ≤ dx ≤ 1 ∧ -1 ≤ dy ≤ 1 ∧ (dx ≠ 0 ∨ dy ≠ 0).
Proof.
  intros Hdi.
  assert (Hcase : di = 0 ∨ di = 1 ∨ di = 2 ∨ di = 3 ∨ di = 4 ∨ di = 5 ∨ di = 6 ∨ di = 7)
    by lia.
  destruct Hcase as [-> | [-> | [-> | [-> | [-> | [-> | [-> | ->]]]]]]];
    eexists _, _; (split; [reflexivity|]); lia.
Qed.

Lemma idxToXY_cell width x y :
  0 ≤ x < width → 0 ≤ y → idxToXY width (y * width + x) = (x, y).
Proof.
  intros Hx Hy. unfold idxToXY. f_equal.
  - rewrite Z.rem_mod_nonneg by nia.
    rewrite Z.add_comm, Z_mod_plus_full. apply Z.mod_small. lia.
  - rewrite Z.div_add_l by lia. rewrite Z.div_small by lia. lia.
Qed.

Lemma chain_snoc (l : list (Z * Z)) x :
  chain l → (∀ p, last l = Some p → adjacent8 p x) → chain (l ++ [x]).
Proof.
  intros Hl Hlast i p q Hp Hq.
  pose proof (lookup_lt_Some _ _ _ Hq) as Hlt. rewrite length_app in Hlt.
  cbn [length] in Hlt.
  destruct (decide (S i < length l)%nat) as [Hin|Hout].
  - rewrite lookup_app_l in Hp by lia. rewrite lookup_app_l in Hq by lia.
    by eapply Hl.
  - assert (Hi : S i = length l) by lia.
    rewrite lookup_app_l in Hp by lia.
    rewrite lookup_app_r in Hq by lia.
    replace (S i - length l)%nat with 0%nat in Hq by lia.
    injection Hq as <-. apply Hlast.
    rewrite last_lookup. by replace (pred (length l)) with i by lia.
Qed.

Lemma fmap_pair_copy (l : list (Z * Z)) : (λ pt : Z * Z, (pt.1, pt.2)) <$> l = l.
Proof.
  induction l as [|[x y] l IH]; [reflexivity|]. cbn. by rewrite IH.
Qed.

Section TracerWalk.
Variable bin : list Z.
Variables width height offsetX offsetY start : Z.
Hypothesis Hwidth : 0 < width.
Hypothesis Hheight : 0 < height.

Local Abbreviation body := (traceBody bin width height offsetX offsetY start).
Local Abbreviation loop := (whileLoop bin width height offsetX offsetY start).
Local Abbreviation state := (iterations bin width height offsetX offsetY start).

Local Abbreviation ring_point := (ring_point bin width height offsetX offsetY).
Local Abbreviation on_foreground := (on_foreground bin width height).
Local Abbreviation walk_inv := (walk_inv bin width height offsetX offsetY).

Lemma findNeighbor_Some cx cy prev n : ∀ d ni di,
  0 ≤ prev → 0 ≤ d →
  findNeighbor bin width height cx cy prev n d = Some (ni, di) →
  0 ≤ di < 8 ∧
  ∃ nx ny, ni = ny * width + nx ∧ 0 ≤ nx < width ∧ 0 ≤ ny < height ∧
    truthy (aget bin ni) = true ∧
    Z.abs (nx - cx) ≤ 1 ∧ Z.abs (ny - cy) ≤ 1 ∧ (nx ≠ cx ∨ ny ≠ cy).
Proof.
  induction n as [|n IH]; intros d ni di Hprev Hd; [discriminate|].
  cbn [findNeighbor]. cbv zeta.
  assert (Hdi : 0 ≤ (prev + 7 + d) `rem` 8 < 8) by (apply Z.rem_bound_pos; lia).
  destruct (directions_lookup _ Hdi) as (dx & dy & -> & Hdx & Hdy & Hne).
  cbn [default from_option fst snd].
  destruct (_ && _) eqn:Htest.
  - intros [= <- <-]. split; [exact Hdi|].
    rewrite !andb_true_iff in Htest.
    destruct Htest as ((((Hx0 & Hx1) & Hy0) & Hy1) & Hfg).
    apply Z.leb_le in Hx0, Hy0. apply Z.ltb_lt in Hx1, Hy1.
    exists (cx + dx), (cy + dy). repeat split; try lia; assumption.
  - intros H. apply (IH (d + 1)); [lia | lia | exact H].
Qed.

Lemma on_foreground_cell i :
  on_foreground i →
  ∃ x y, idxToXY width i = (x, y) ∧ i = y * width + x ∧
    0 ≤ x < width ∧ 0 ≤ y < height ∧ truthy (aget bin i) = true.
Proof.
  intros (x & y & -> & Hx & Hy & Hfg). exists x, y.
  rewrite idxToXY_cell by lia. repeat split; try lia; done.
Qed.

Lemma traceBody_walk_inv s : done s = false → walk_inv s → walk_inv (body s).
Proof.
  intros Hdone (Hprev & Hcurr & Hring & Hchain & Hlast).
  destruct (on_foreground_cell _ Hcurr) as (cx & cy & Hxy & Hidx & Hcx & Hcy & Hfg).
  unfold walk_inv, traceBody. rewrite Hxy.
  assert (Hpt : ring_point (cx + offsetX, cy + offsetY)).
  { exists cx, cy. rewrite <- Hidx. repeat split; try lia; done. }
  assert (Hchain' : chain (coords s ++ [(cx + offsetX, cy + offsetY)])).
  { apply chain_snoc; [exact Hchain|]. intros p Hp.
    specialize (Hlast Hdone p Hp). by rewrite Hxy in Hlast. }
  destruct (findNeighbor bin width height cx cy (prevDir s) 8 0)
    as [[ni di]|] eqn:Hnext; cbn [from_option fst snd curr prevDir done coords].
  - destruct (findNeighbor_Some cx cy (prevDir s) 8 0 ni di ltac:(lia) ltac:(lia) Hnext)
      as (Hdi & nx & ny & Hni & Hnx & Hny & Hnfg & Hax & Hay & Hne).
    split; [exact Hdi|]. split; [exists nx, ny; repeat split; try lia; done|].
    split; [apply Forall_app; split; [exact Hring | by constructor]|].
    split; [exact Hchain'|].
    intros _ p. rewrite last_snoc. intros [= <-].
    rewrite Hni, idxToXY_cell by lia.
    unfold adjacent8, translatePoint. cbn [fst snd]. lia.
  - split; [exact Hprev|]. split; [exact Hcurr|].
    split; [apply Forall_app; split; [exact Hring | by constructor]|].
    split; [exact Hchain'|].
    destruct (_ && _); discriminate.
Qed.

Hypothesis Hstart : on_foreground start.

Lemma traceInit_walk_inv : walk_inv (traceInit start).
Proof.
  unfold walk_inv, traceInit. cbn [prevDir curr coords done].
  split; [lia|]. split; [exact Hstart|]. split; [constructor|].
  split; [intros i p q Hp; discriminate|]. intros _ p. discriminate.
Qed.

Lemma iterations_walk_inv n :
  (∀ k, (k < n)%nat → (loopTest (state k (traceInit start))).1 = true) →
  walk_inv (state n (traceInit start)).
Proof.
  induction n as [|n IH]; intros Htests; [apply traceInit_walk_inv|].
  rewrite iterations_succ_r.
  destruct (loopTest_true (state n (traceInit start)))
    as (_ & _ & Hd & _ & Hc & Hp & Hcs); [apply Htests; lia|].
  apply traceBody_walk_inv; [exact Hd|].
  specialize (IH ltac:(intros k Hk; apply Htests; lia)).
  unfold walk_inv in *. rewrite Hd, Hc, Hp, Hcs.
  destruct IH as (H1 & H2 & H3 & H4 & H5). repeat split; try assumption; try lia.
  intros _. apply H5.
  destruct (loopTest_true (state n (traceInit start))) as (Hd0 & _);
    [apply Htests; lia | exact Hd0].
Qed.

Lemma iterations_coords n : ∀ s,
  ∃ l, coords (state n s) = coords s ++ l ∧ length l = n.
Proof.
  induction n as [|n IH]; intros s.
  - exists []. by rewrite app_nil_r.
  - cbn [iterations].
    destruct (IH (body (loopTest s).2)) as (l & -> & Hl).
    unfold traceBody. destruct (idxToXY width (curr (loopTest s).2)) as [cx cy].
    cbn [coords]. rewrite loopTest_coords, <- app_assoc.
    eexists. split; [reflexivity|]. cbn [app length]. lia.
Qed.

(** The ring the loop returns, as run by [maskToGeoJSON]. *)
Lemma traced_ring :
  ∃ (n : nat) tail,
    coords (loop traceFuel (traceInit start)) =
      translatePoint offsetX offsetY (idxToXY width start) :: tail ∧
    length tail = n ∧ Z.of_nat (S n) ≤ LOOP_GUARD_MAX ∧
    Forall ring_point (coords (loop traceFuel (traceInit start))) ∧
    chain (coords (loop traceFuel (traceInit start))).
Proof.
  destruct (loopTest_fails_within bin width height offsetX offsetY start
              (Z.to_nat LOOP_GUARD_MAX) (traceInit start))
    as (n & Hn & Htests & Hexit).
  { cbn [traceInit loopGuard]. unfold LOOP_GUARD_MAX. lia. }
  rewrite (whileLoop_iterations _ _ _ _ _ _ n) by
    (first [exact Htests | exact Hexit | unfold traceFuel; lia]).
  rewrite loopTest_coords.
  destruct n as [|n]; [discriminate|].
  destruct (iterations_walk_inv (S n) Htests) as (_ & _ & Hring & Hchain & _).
  cbn [iterations] in *.
  set (s1 := body (loopTest (traceInit start)).2) in *.
  destruct (iterations_coords n s1) as (l & Hl & Hlen).
  assert (Hs1 : coords s1 = [translatePoint offsetX offsetY (idxToXY width start)]).
  { unfold s1, traceBody. cbn [loopTest traceInit done curr snd coords].
    by destruct (idxToXY width start). }
  rewrite Hs1 in Hl. cbn [app] in Hl. rewrite Hl in *.
  exists n, l. split; [reflexivity|]. split; [exact Hlen|].
  split; [unfold LOOP_GUARD_MAX in *; lia|]. by split.
Qed.
End TracerWalk.

(** *** What [maskToGeoJSON] returns *)

Lemma buildBin_lookup (mask : list Z) width height :
  0 ≤ width * height →
  ∃ bin, buildBin mask width height = Ok bin ∧
    length bin = Z.to_nat (width * height) ∧
    ∀ i, 0 ≤ i < width * height → truthy (aget bin i) = truthy (aget mask i).
Proof.
  intros Harea. unfold buildBin. rewrite newTypedArray_ok by lia.
  cbn [mbind result_bind]. eexists. split; [reflexivity|].
  destruct (fill_row (λ i, if truthy (aget mask i) then 1 else 0) (width * height)
              (replicate (Z.to_nat (width * height)) 0)) as [Hl Hc];
    [lia | apply length_replicate |].
  split; [exact Hl|]. intros i Hi.
  rewrite (aget_nonneg _ i) by lia. rewrite Hc by lia.
  by destruct (truthy (aget mask i)).
Qed.

Lemma aget_cons v (l : list Z) j : 0 ≤ j → aget (v :: l) (j + 1) = aget l j.
Proof.
  intros Hj. rewrite !aget_nonneg by lia.
  by replace (Z.to_nat (j + 1)) with (S (Z.to_nat j)) by lia.
Qed.

Lemma findStartFrom_spec bin : ∀ i,
  0 ≤ i →
  (findStartFrom i bin = -1 ∧ Forall (λ v, v = 0) bin) ∨
  (∃ k, 0 ≤ k < Z.of_nat (length bin) ∧ findStartFrom i bin = i + k ∧
     truthy (aget bin k) = true ∧
     ∀ j, 0 ≤ j < k → truthy (aget bin j) = false).
Proof.
  induction bin as [|v bin IH]; intros i Hi; [by left|].
  cbn [findStartFrom]. destruct (v =? 0) eqn:Hv; cbn [negb].
  - apply Z.eqb_eq in Hv as ->.
    destruct (IH (i + 1) ltac:(lia)) as [[-> Hall] | (k & Hk & -> & Hfg & Hbefore)].
    + left. split; [reflexivity | by constructor].
    + right. exists (k + 1). cbn [length].
      split; [lia|]. split; [lia|]. split; [by rewrite aget_cons by lia|].
      intros j Hj. destruct (decide (j = 0)) as [->|Hne]; [reflexivity|].
      replace j with ((j - 1) + 1) by lia. rewrite aget_cons by lia.
      apply Hbefore. lia.
  - right. exists 0. cbn [length]. split; [lia|]. split; [lia|].
    split; [|intros j Hj; lia].
    change (aget (v :: bin) 0) with (Some v). cbn [truthy]. by rewrite Hv.
Qed.

(** The two ways [maskToGeoJSON] ends for a grid of non-negative size. *)
Lemma maskToGeoJSON_cases (mask : list Z) width height offsetX offsetY :
  0 ≤ width → 0 ≤ height →
  ((∀ i, 0 ≤ i < width * height → truthy (aget mask i) = false) ∧
   maskToGeoJSON mask width height offsetX offsetY = Ok {| features := [] |}) ∨
  (∃ bin start,
     0 < width ∧ 0 < height ∧ 0 ≤ start < width * height ∧
     (∀ i, 0 ≤ i < width * height → truthy (aget bin i) = truthy (aget mask i)) ∧
     truthy (aget mask start) = true ∧
     (∀ j, 0 ≤ j < start → truthy (aget mask j) = false) ∧
     maskToGeoJSON mask width height offsetX offsetY =
       Ok (singleRing
             (coords (whileLoop bin width height offsetX offsetY start traceFuel
                        (traceInit start))))).
Proof.
  intros Hw Hh.
  destruct (buildBin_lookup mask width height) as (bin & Hbin & Hl & Hc); [nia|].
  unfold maskToGeoJSON. rewrite Hbin. cbn [mbind result_bind]. cbv zeta.
  unfold findStart.
  destruct (findStartFrom_spec bin 0 ltac:(lia))
    as [[-> Hall] | (k & Hk & -> & Hfg & Hbefore)].
  - left. split; [|reflexivity].
    intros i Hi. rewrite <- Hc by lia. by apply truthy_background.
  - right. destruct (Z.eqb_spec (0 + k) (-1)) as [Heq|_]; [lia|].
    rewrite Z.add_0_l. exists bin, k.
    assert (0 < width * height) by lia.
    split; [nia|]. split; [nia|]. split; [lia|]. split; [exact Hc|].
    split; [by rewrite <- Hc by lia|]. split.
    + intros j Hj. rewrite <- Hc by lia. by apply Hbefore.
    + unfold singleRing. by rewrite fmap_pair_copy.
Qed.

Lemma on_foreground_index bin width height i :
  0 < width → 0 ≤ i < width * height → truthy (aget bin i) = true →
  on_foreground bin width height i ∧
  idxToXY width i = (i `mod` width, i / width) ∧
  0 ≤ i `mod` width < width ∧ 0 ≤ i / width < height ∧
  i = (i / width) * width + i `mod` width.
Proof.
  intros Hw Hi Hfg.
  pose proof (Z.mod_pos_bound i width Hw) as Hmod.
  pose proof (Z.div_mod i width ltac:(lia)) as Hdm.
  assert (Hdiv : 0 ≤ i / width < height).
  { split; [apply Z.div_pos; lia | apply Z.div_lt_upper_bound; nia]. }
  split; [|split; [|split; [lia | split; [lia | lia]]]].
  - exists (i `mod` width), (i / width). repeat split; try lia. exact Hfg.
  - unfold idxToXY. by rewrite Z.rem_mod_nonneg by lia.
Qed.

(** X10. For a mask of [width * height] entries, [maskToGeoJSON] returns
    either no feature, exactly when no mask entry is non-zero, or one
    polygon with one ring: the ring starts at the first non-zero entry in
    row-major order, shifted by the offsets, and has at most 1,000,000
    points. *)
Theorem maskToGeoJSON_ring_start (mask : list Z) (width height offsetX offsetY : Z) :
  0 ≤ width → 0 ≤ height →
  Z.of_nat (length mask) = width * height →
  ((∀ i, 0 ≤ i < width * height → ¬ foreground mask i) ∧
   maskToGeoJSON mask width height offsetX offsetY = Ok {| features := [] |}) ∨
  (∃ x0 y0 tail,
     0 ≤ x0 < width ∧ 0 ≤ y0 < height ∧
     foreground mask (y0 * width + x0) ∧
     (∀ j, 0 ≤ j < y0 * width + x0 → ¬ foreground mask j) ∧
     maskToGeoJSON mask width height offsetX offsetY =
       Ok (singleRing ((x0 + offsetX, y0 + offsetY) :: tail)) ∧
     Z.of_nat (length tail) < 1000000).
Proof.
  intros Hw Hh Hsize. unfold foreground.
  destruct (maskToGeoJSON_cases mask width height offsetX offsetY Hw Hh)
    as [[Hnone ->] | (bin & start & Hw' & Hh' & Hs & Hc & Hfg & Hbefore & ->)].
  - left. split; [|reflexivity]. intros i Hi. by rewrite Hnone.
  - right.
    destruct (on_foreground_index bin width height start Hw' Hs)
      as (Hon & Hxy & Hx & Hy & Hidx); [by rewrite Hc|].
    destruct (traced_ring bin width height offsetX offsetY start Hw' Hon)
      as (n & tail & Hring & Hlen & Hn & _).
    exists (start `mod` width), (start / width), tail.
    rewrite <- Hidx. split; [lia|]. split; [lia|]. split; [exact Hfg|].
    split; [intros j Hj; by rewrite Hbefore|].
    split; [|unfold LOOP_GUARD_MAX in Hn; lia].
    rewrite Hring, Hxy. reflexivity.
Qed.

Lemma maskToGeoJSON_ring_start_witness :
  ((∀ i, 0 ≤ i < 4 * 4 → ¬ foreground squareMask i) ∧
   maskToGeoJSON squareMask 4 4 10 20 = Ok {| features := [] |}) ∨
  (∃ x0 y0 tail,
     0 ≤ x0 < 4 ∧ 0 ≤ y0 < 4 ∧
     foreground squareMask (y0 * 4 + x0) ∧
     (∀ j, 0 ≤ j < y0 * 4 + x0 → ¬ foreground squareMask j) ∧
     maskToGeoJSON squareMask 4 4 10 20 =
       Ok (singleRing ((x0 + 10, y0 + 20) :: tail)) ∧
     Z.of_nat (length tail) < 1000000).
Proof.
  apply (maskToGeoJSON_ring_start squareMask 4 4 10 20); [lia | lia | reflexivity].
Defined.

(** X11. Every point of the returned ring is a pixel of the grid whose
    mask entry is non-zero, shifted by the offsets: the ring never leaves
    the foreground. *)
Theorem maskToGeoJSON_ring_on_foreground (mask : list Z)
    (width height offsetX offsetY : Z) (ring : list (Z * Z)) :
  0 ≤ width → 0 ≤ height →
  maskToGeoJSON mask width height offsetX offsetY = Ok (singleRing ring) →
  Forall (λ p, ∃ x y, p = (x + offsetX, y + offsetY) ∧
                 0 ≤ x < width ∧ 0 ≤ y < height ∧
                 foreground mask (y * width + x)) ring.
Proof.
  intros Hw Hh Hres.
  destruct (maskToGeoJSON_cases mask width height offsetX offsetY Hw Hh)
    as [[_ Hempty] | (bin & start & Hw' & Hh' & Hs & Hc & Hfg & _ & Hring)].
  - rewrite Hempty in Hres. discriminate.
  - destruct (on_foreground_index bin width height start Hw' Hs) as (Hon & _);
      [by rewrite Hc|].
    destruct (traced_ring bin width height offsetX offsetY start Hw' Hon)
      as (_ & _ & _ & _ & _ & Hpts & _).
    revert Hring Hpts.
    generalize (coords (whileLoop bin width height offsetX offsetY start traceFuel
                          (traceInit start))).
    intros traced Hring Hpts. rewrite Hring in Hres.
    unfold singleRing in Hres. injection Hres as <-.
    eapply Forall_impl; [exact Hpts|].
    intros p (x & y & -> & Hx & Hy & Hp). exists x, y.
    unfold foreground. rewrite <- Hc by nia. repeat split; try lia; done.
Qed.

Lemma maskToGeoJSON_ring_on_foreground_witness :
  Forall (λ p, ∃ x y, p = (x + 3, y + 4) ∧ 0 ≤ x < 10 ∧ 0 ≤ y < 10 ∧
                 foreground singlePixelMask (y * 10 + x))
    [(8, 9)].
Proof.
  apply (maskToGeoJSON_ring_on_foreground singlePixelMask 10 10 3 4 [(8, 9)]);
    [lia | lia | vm_compute; reflexivity].
Defined.

(** X12. Each point of the returned ring touches the next one by an edge
    or a corner: the ring is an 8-connected walk without jumps and without
    standing still. *)
Theorem maskToGeoJSON_ring_connected (mask : list Z)
    (width height offsetX offsetY : Z) (ring : list (Z * Z)) :
  0 ≤ width → 0 ≤ height →
  maskToGeoJSON mask width height offsetX offsetY = Ok (singleRing ring) →
  ∀ (i : nat) p q, ring !! i = Some p → ring !! S i = Some q →
    Z.max (Z.abs (q.1 - p.1)) (Z.abs (q.2 - p.2)) = 1.
Proof.
  intros Hw Hh Hres.
  destruct (maskToGeoJSON_cases mask width height offsetX offsetY Hw Hh)
    as [[_ Hempty] | (bin & start & Hw' & Hh' & Hs & Hc & Hfg & _ & Hring)].
  - rewrite Hempty in Hres. discriminate.
  - destruct (on_foreground_index bin width height start Hw' Hs) as (Hon & _);
      [by rewrite Hc|].
    destruct (traced_ring bin width height offsetX offsetY start Hw' Hon)
      as (_ & _ & _ & _ & _ & _ & Hchain).
    revert Hring Hchain.
    generalize (coords (whileLoop bin width height offsetX offsetY start traceFuel
                          (traceInit start))).
    intros traced Hring Hchain. rewrite Hring in Hres.
    unfold singleRing in Hres. injection Hres as <-.
    exact Hchain.
Qed.

Lemma maskToGeoJSON_ring_connected_witness :
  maskToGeoJSON squareMask 4 4 0 0 =
    Ok (singleRing (mjoin (replicate 6 [(1, 1); (2, 1); (2, 2); (1, 2)]))) ∧
  Z.max (Z.abs ((1, 1).1 - (1, 2).1)) (Z.abs ((1, 1).2 - (1, 2).2)) = 1.
Proof.
  assert (Hring : maskToGeoJSON squareMask 4 4 0 0 =
            Ok (singleRing (mjoin (replicate 6 [(1, 1); (2, 1); (2, 2); (1, 2)]))))
    by (vm_compute; reflexivity).
  split; [exact Hring|].
  apply (maskToGeoJSON_ring_connected squareMask 4 4 0 0
           (mjoin (replicate 6 [(1, 1); (2, 1); (2, 2); (1, 2)]))
           ltac:(lia) ltac:(lia) Hring 3%nat (1, 2) (1, 1)); reflexivity.
Defined.

(** *** Offsets *)

Lemma traceBody_translate bin width height dx dy start s :
  traceBody bin width height dx dy start (translateState dx dy s) =
    translateState dx dy (traceBody bin width height 0 0 start s).
Proof.
  unfold traceBody, translateState. cbn [curr prevDir done loopGuard coords].
  destruct (idxToXY width (curr s)) as [cx cy].
  cbn [curr prevDir done loopGuard coords].
  rewrite fmap_app, !length_app, length_fmap. cbn [fmap list_fmap translatePoint fst snd].
  by rewrite !Z.add_0_r.
Qed.

Lemma loopTest_translate dx dy s :
  loopTest (translateState dx dy s) =
    ((loopTest s).1, translateState dx dy (loopTest s).2).
Proof.
  unfold loopTest, translateState. cbn [done].
  destruct (done s) eqn:Hd; cbn; by rewrite ?Hd.
Qed.

Lemma whileLoop_translate bin width height dx dy start fuel : ∀ s,
  whileLoop bin width height dx dy start fuel (translateState dx dy s) =
    translateState dx dy (whileLoop bin width height 0 0 start fuel s).
Proof.
  induction fuel as [|fuel IH]; intros s; [reflexivity|].
  cbn [whileLoop]. rewrite loopTest_translate.
  destruct (loopTest s) as [c s1]. cbn [fst snd].
  destruct c; [|reflexivity].
  by rewrite traceBody_translate, IH.
Qed.

(** X13. The offsets only translate the result: tracing with offsets
    [(offsetX, offsetY)] gives the collection traced with offsets [(0, 0)],
    each point shifted by [(offsetX, offsetY)]; whether and where the walk
    stops does not depend on them. *)
Theorem maskToGeoJSON_offset_translates (mask : list Z)
    (width height offsetX offsetY : Z) :
  maskToGeoJSON mask width height offsetX offsetY =
    result_map (translateCollection offsetX offsetY)
      (maskToGeoJSON mask width height 0 0).
Proof.
  unfold maskToGeoJSON.
  destruct (buildBin mask width height) as [bin|e]; cbn [mbind result_bind result_map];
    [|reflexivity].
  cbv zeta. destruct (findStart bin =? -1); cbn [result_map]; [reflexivity|].
  change (traceInit (findStart bin))
    with (translateState offsetX offsetY (traceInit (findStart bin))) at 1.
  rewrite whileLoop_translate.
  generalize (whileLoop bin width height 0 0 (findStart bin) traceFuel
                (traceInit (findStart bin))).
  intros s. unfold translateCollection, translateState.
  cbn [features fmap list_fmap geometry translateGeometry coords].
  by rewrite !fmap_pair_copy.
Qed.

(** *** Sizes that cannot be allocated *)

(** X14. When exactly one of [width] and [height] is negative the tracer
    throws a RangeError, whatever the mask: the [Uint8Array] of
    [width * height] entries cannot be created. *)
Theorem maskToGeoJSON_negative_area (mask : list Z)
    (width height offsetX offsetY : Z) :
  width * height < 0 →
  maskToGeoJSON mask width height offsetX offsetY = Throw RangeError.
Proof.
  intros Harea. unfold maskToGeoJSON, buildBin, newTypedArray.
  destruct (Z.ltb_spec (width * height) 0); [reflexivity | lia].
Qed.

Lemma maskToGeoJSON_negative_area_witness :
  maskToGeoJSON [255; 255; 255] (-1) 3 0 0 = Throw RangeError.
Proof.
  apply (maskToGeoJSON_negative_area [255; 255; 255] (-1) 3 0 0). lia.
Defined.

(** *** The facade under an allocation limit *)

Lemma exceeds_mono maxLength a b :
  a ≤ b → exceeds maxLength a = true → exceeds maxLength b = true.
Proof.
  unfold exceeds. destruct maxLength as [L|]; [|discriminate].
  rewrite !Z.ltb_lt. lia.
Qed.

Lemma exceeds_false_mono maxLength a b :
  a ≤ b → exceeds maxLength b = false → exceeds maxLength a = false.
Proof.
  intros Hab Hb. destruct (exceeds maxLength a) eqn:Ha; [|reflexivity].
  by rewrite (exceeds_mono _ _ _ Hab Ha) in Hb.
Qed.

Lemma Limited_newTypedArray_spec maxLength n :
  Limited.newTypedArray maxLength n =
    if exceeds maxLength n then Throw RangeError else newTypedArray n.
Proof. reflexivity. Qed.

Lemma Limited_resampleMaskTo_spec maxLength (m : list Z) w h tw th :
  Limited.resampleMaskTo maxLength m w h tw th =
    if exceeds maxLength (tw * th) then Throw RangeError
    else resampleMaskTo m w h tw th.
Proof.
  unfold Limited.resampleMaskTo, resampleMaskTo. rewrite Limited_newTypedArray_spec.
  by destruct (exceeds maxLength (tw * th)).
Qed.

Lemma Limited_colorThreshold_spec maxLength (cropData : list Z) sw sh :
  Limited.colorThreshold maxLength cropData sw sh =
    if exceeds maxLength (sw * sh) then Throw RangeError
    else colorThreshold cropData sw sh.
Proof.
  unfold Limited.colorThreshold, colorThreshold. rewrite Limited_newTypedArray_spec.
  by destruct (exceeds maxLength (sw * sh)).
Qed.

(** A result of the output interpretation on a limited engine is the
    result without the limit, and the mask of the crop's size was created. *)
Lemma Limited_interpretOutput_Ok maxLength outTensor sw sh r :
  Limited.interpretOutput maxLength outTensor sw sh = Ok r →
  interpretOutput outTensor sw sh = Ok r ∧ exceeds maxLength (sw * sh) = false.
Proof.
  unfold Limited.interpretOutput, interpretOutput. cbv zeta.
  destruct (aget (tdims outTensor) _) as [ow|];
    [destruct (aget (tdims outTensor) _) as [oh|]|];
    rewrite Limited_newTypedArray_spec.
  - destruct (exceeds maxLength (ow * oh)); cbn [mbind result_bind]; [discriminate|].
    destruct (newTypedArray (ow * oh)) as [a|e]; cbn [mbind result_bind];
      [|discriminate].
    rewrite Limited_resampleMaskTo_spec.
    destruct (exceeds maxLength (sw * sh)); cbn [mbind result_bind]; [discriminate|].
    by split.
  - destruct (exceeds maxLength (sw * sh)); cbn [mbind result_bind]; [discriminate|].
    by split.
  - destruct (exceeds maxLength (sw * sh)); cbn [mbind result_bind]; [discriminate|].
    by split.
Qed.

Lemma Limited_runAndInterpret_Ok maxLength s feeds sw sh r :
  Limited.runAndInterpret maxLength s feeds sw sh = Ok r →
  runAndInterpret s feeds sw sh = Ok r ∧ exceeds maxLength (sw * sh) = false.
Proof.
  unfold Limited.runAndInterpret, runAndInterpret.
  destruct (run s feeds) as [[|[outName outTensor] rest]|e]; cbn [mbind result_bind];
    try discriminate.
  apply Limited_interpretOutput_Ok.
Qed.

Lemma Limited_tryInputNames_Some maxLength s inputTensor sw sh names :
  1 ≤ sw → 1 ≤ sh →
  ∀ feeds r,
    Limited.tryInputNames maxLength s inputTensor sw sh feeds names = Some r →
    mask_invariant sw sh r ∧ exceeds maxLength (sw * sh) = false.
Proof.
  intros Hsw Hsh. induction names as [|name names IH]; intros feeds r; [discriminate|].
  cbn [Limited.tryInputNames].
  destruct (Limited.runAndInterpret maxLength s _ sw sh) as [r'|e] eqn:Hrun.
  - intros [= <-]. apply Limited_runAndInterpret_Ok in Hrun as [Hrun Hfits].
    split; [by eapply runAndInterpret_invariant | exact Hfits].
  - apply IH.
Qed.


(** What the guarded model branch hands to the rest of the facade: nothing,
    or a result of the crop's size. It never throws past the outer [try]. *)
Lemma Limited_modelBranch_caught maxLength resize s crop sw sh :
  1 ≤ sw → 1 ≤ sh →
  try_catch (Limited.modelBranch maxLength resize s crop sw sh) (λ err, Ok None)
    = Ok None ∨
  ∃ r, try_catch (Limited.modelBranch maxLength resize s crop sw sh) (λ err, Ok None)
         = Ok (Some r) ∧
       mask_invariant sw sh r ∧ exceeds maxLength (sw * sh) = false.
Proof.
  intros Hsw Hsh.
  destruct (Limited.modelBranch maxLength resize s crop sw sh) as [[r|]|e] eqn:Hmb;
    cbn [try_catch]; [right | by left | by left].
  exists r. split; [reflexivity|].
  revert Hmb. unfold Limited.modelBranch.
  destruct (Limited.getImageData _ _ _ _) as [imgData|e]; cbn [mbind result_bind];
    [|discriminate].
  destruct (Limited.buildFloatData _ _ _) as [floatData|e]; cbn [mbind result_bind];
    [|discriminate].
  destruct (newTensor _ _) as [inputTensor|e]; cbn [mbind result_bind]; [|discriminate].
  intros [= H]. by eapply Limited_tryInputNames_Some.
Qed.


(** The fallback on a limited engine: it throws when the crop's image data
    cannot be created, and is the threshold classifier otherwise. *)
Lemma Limited_fallback maxLength (crop : list Z) sw sh :
  1 ≤ sw → 1 ≤ sh →
  (cropData ← Limited.getImageData maxLength crop sw sh;
   mask ← Limited.colorThreshold maxLength cropData sw sh;
   Ok {| mask := mask; width := sw; height := sh |}) =
  if exceeds maxLength (sw * sh * 4) then Throw RangeError
  else (mask ← colorThreshold crop sw sh;
        Ok {| mask := mask; width := sw; height := sh |}).
Proof.
  intros Hsw Hsh. unfold Limited.getImageData.
  destruct (exceeds maxLength (sw * sh * 4)) eqn:Hbig; cbn [mbind result_bind];
    [reflexivity|].
  rewrite Limited_colorThreshold_spec.
  by rewrite (exceeds_false_mono maxLength (sw * sh) (sw * sh * 4)) by (nia || exact Hbig).
Qed.

(** The facade on a limited engine returns what the guarded model branch
    returned, or else ends in the fallback. *)
Lemma Limited_segmentBoxOnCanvas_cases maxLength st resize sourceCanvas box :
  let sx := Z.max 0 (Qfloor (box_x box)) in
  let sy := Z.max 0 (Qfloor (box_y box)) in
  let sw := Z.max 1 (Qfloor (box_w box)) in
  let sh := Z.max 1 (Qfloor (box_h box)) in
  let crop := getCropData sourceCanvas sx sy sw sh in
  (∃ r, Limited.segmentBoxOnCanvas maxLength st resize sourceCanvas box = Ok r ∧
     mask_invariant sw sh r ∧ exceeds maxLength (sw * sh) = false) ∨
  Limited.segmentBoxOnCanvas maxLength st resize sourceCanvas box =
    (if exceeds maxLength (sw * sh * 4) then Throw RangeError
     else (mask ← colorThreshold crop sw sh;
           Ok {| mask := mask; width := sw; height := sh |})).
Proof.
  intros sx sy sw sh crop.
  assert (Hsw : 1 ≤ sw) by (unfold sw; lia).
  assert (Hsh : 1 ≤ sh) by (unfold sh; lia).
  unfold Limited.segmentBoxOnCanvas. cbv zeta. fold sx sy sw sh. fold crop.
  destruct (modelReady st); [destruct (ortSession st) as [s|]|];
    try (right; cbn [mbind result_bind]; by apply Limited_fallback).
  destruct (Limited_modelBranch_caught maxLength resize s crop sw sh Hsw Hsh)
    as [-> | (r & -> & Hinv & Hfits)]; cbn [mbind result_bind].
  - right. by apply Limited_fallback.
  - left. by exists r.
Qed.

(** Without a limit the limited facade is the facade. *)
Lemma Limited_None st resize sourceCanvas box :
  Limited.segmentBoxOnCanvas None st resize sourceCanvas box =
    segmentBoxOnCanvas st resize sourceCanvas box.
Proof. reflexivity. Qed.


Lemma Limited_segmentBoxOnCanvas_invariant maxLength st resize sourceCanvas box r :
  Limited.segmentBoxOnCanvas maxLength st resize sourceCanvas box = Ok r →
  mask_invariant (Z.max 1 (Qfloor (box_w box))) (Z.max 1 (Qfloor (box_h box))) r.
Proof.
  intros Hr.
  set (sw := Z.max 1 (Qfloor (box_w box))).
  set (sh := Z.max 1 (Qfloor (box_h box))).
  assert (Hsw : 1 ≤ sw) by (unfold sw; lia).
  assert (Hsh : 1 ≤ sh) by (unfold sh; lia).
  destruct (Limited_segmentBoxOnCanvas_cases maxLength st resize sourceCanvas box)
    as [(r' & Hr' & Hinv & _) | Hfall].
  - cbv zeta in Hinv. rewrite Hr in Hr'. by injection Hr' as <-.
  - cbv zeta in Hfall. fold sw sh in Hfall. rewrite Hr in Hfall.
    destruct (exceeds maxLength (sw * sh * 4)); [discriminate|].
    destruct (colorThreshold _ sw sh) as [m|e] eqn:Hm; cbn [mbind result_bind] in Hfall;
      [|discriminate].
    injection Hfall as ->. unfold mask_invariant. cbn [mask width height].
    split; [reflexivity|]. split; [reflexivity|]. split.
    + destruct (colorThreshold_lookup
                  (getCropData sourceCanvas (Z.max 0 (Qfloor (box_x box)))
                     (Z.max 0 (Qfloor (box_y box))) sw sh) sw sh)
        as (m' & Hm' & Hl & _); [lia..|].
      rewrite Hm in Hm'. injection Hm' as <-. nia.
    + by eapply colorThreshold_binary.
Qed.




(** C3. Whatever the box, the session, the engine's limit and the branch
    taken, every object the facade returns has the clamped crop size as its
    dimensions and a mask of [width * height] entries, each 0 or 255. *)
Theorem segmentBoxOnCanvas_result_invariant (maxLength : option Z)
    (st : ModelState) (resize : list Z → Z → Z → Z → list Z)
    (sourceCanvas : Canvas) (box : Box) (r : SegResult) :
  Limited.segmentBoxOnCanvas maxLength st resize sourceCanvas box = Ok r →
  width r = Z.max 1 (Qfloor (box_w box)) ∧
  height r = Z.max 1 (Qfloor (box_h box)) ∧
  Z.of_nat (length (mask r)) = width r * height r ∧
  Forall is_binary (mask r).
Proof.
  intros Hr.
  destruct (Limited_segmentBoxOnCanvas_invariant _ _ _ _ _ _ Hr)
    as (Hw & Hh & Hl & Hb).
  rewrite Hw, Hh. by repeat split.
Qed.

Lemma segmentBoxOnCanvas_result_invariant_witness :
  width {| mask := [255; 255; 0; 0; 0; 0; 255; 255]; width := 4; height := 2 |}
    = Z.max 1 (Qfloor 4) ∧
  height {| mask := [255; 255; 0; 0; 0; 0; 255; 255]; width := 4; height := 2 |}
    = Z.max 1 (Qfloor 2) ∧
  Z.of_nat (length [255; 255; 0; 0; 0; 0; 255; 255]) = 4 * 2 ∧
  Forall is_binary [255; 255; 0; 0; 0; 0; 255; 255].
Proof.
  apply (segmentBoxOnCanvas_result_invariant None
    {| ortSession :=
         Some {| inputNames := None;
                 run := λ feeds,
                   if decide (is_Some (feeds !! "input"%string))
                   then Ok [("masks"%string,
                             {| tdata := [Fnum (9 # 10); Fnum (1 # 2);
                                          Fnan; Fposinf];
                                tdims := [1; 1; 2; 2] |})]
                   else Throw (RuntimeError "missing input") |};
       modelReady := true |}
    (λ cropData sw sh S, [])
    {| cwidth := 4; cheight := 2; cpixels := replicate 32 0 |}
    {| box_x := 0; box_y := 0; box_w := 4; box_h := 2 |}).
  rewrite Limited_None. apply segmentBoxOnCanvas_model_branch.
Defined.

(** *** From the facade to the tracer *)

(** X15. Whatever the facade returns can be traced with the crop's origin
    as offsets: the tracer does not throw on it, and gives either no
    feature or one ring whose points all lie inside the clamped box
    [[sx, sx + sw) x [sy, sy + sh)] of the source. *)
Theorem segmentBoxOnCanvas_then_maskToGeoJSON (maxLength : option Z)
    (st : ModelState) (resize : list Z → Z → Z → Z → list Z)
    (sourceCanvas : Canvas) (box : Box) (r : SegResult) :
  let sx := Z.max 0 (Qfloor (box_x box)) in
  let sy := Z.max 0 (Qfloor (box_y box)) in
  let sw := Z.max 1 (Qfloor (box_w box)) in
  let sh := Z.max 1 (Qfloor (box_h box)) in
  Limited.segmentBoxOnCanvas maxLength st resize sourceCanvas box = Ok r →
  maskToGeoJSON (mask r) (width r) (height r) sx sy = Ok {| features := [] |} ∨
  ∃ ring,
    maskToGeoJSON (mask r) (width r) (height r) sx sy = Ok (singleRing ring) ∧
    Forall (λ p, sx ≤ p.1 < sx + sw ∧ sy ≤ p.2 < sy + sh) ring.
Proof.
  intros sx sy sw sh Hr.
  assert (Hsw : 1 ≤ sw) by (unfold sw; lia).
  assert (Hsh : 1 ≤ sh) by (unfold sh; lia).
  destruct (Limited_segmentBoxOnCanvas_invariant _ _ _ _ _ _ Hr) as (Hwd & Hht & _).
  fold sw in Hwd. fold sh in Hht. rewrite Hwd, Hht.
  destruct (maskToGeoJSON_cases (mask r) sw sh sx sy ltac:(lia) ltac:(lia))
    as [[_ Hempty] | (bin & start & Hw' & Hh' & Hs & Hc & Hfg & _ & Hring)].
  - by left.
  - right. eexists. split; [exact Hring|].
    destruct (on_foreground_index bin sw sh start Hw' Hs) as (Hon & _);
      [by rewrite Hc|].
    destruct (traced_ring bin sw sh sx sy start Hw' Hon)
      as (_ & _ & _ & _ & _ & Hpts & _).
    eapply Forall_impl; [exact Hpts|].
    intros p (x & y & -> & Hx & Hy & _). cbn [fst snd]. lia.
Qed.

Lemma segmentBoxOnCanvas_then_maskToGeoJSON_witness :
  maskToGeoJSON [255; 0] 2 1 1 0 = Ok {| features := [] |} ∨
  ∃ ring,
    maskToGeoJSON [255; 0] 2 1 1 0 = Ok (singleRing ring) ∧
    Forall (λ p, 1 ≤ p.1 < 1 + 2 ∧ 0 ≤ p.2 < 0 + 1) ring.
Proof.
  apply (segmentBoxOnCanvas_then_maskToGeoJSON (Some 100) initialState
    (λ cropData sw sh S, [])
    {| cwidth := 3; cheight := 1;
       cpixels := [0; 0; 0; 255; 0; 0; 200; 255; 100; 100; 120; 255] |}
    {| box_x := 3 # 2; box_y := 0; box_w := 2; box_h := 1 |}
    {| mask := [255; 0]; width := 2; height := 1 |}).
  vm_compute. reflexivity.
Defined.
